(** * rDTMF: the real-time audio pipeline of [rDTMF.py]

    A shallow embedding of the DTMF detector, the level meter, the audio
    callback and the configuration entry points of [src/rDTMF.py], with the
    properties of the pipeline stated and proved over it.

    Numbers.  The program computes with IEEE doubles.  A double is a rational
    ([Q]); [Float64.round] is rounding to the nearest double, ties to even.
    The two computations whose result is compared against a threshold the
    rounding can cross are rounded as the interpreter rounds them: the peak
    height [np.max(magnitudes) * 0.68] and the frequency axis
    [np.fft.rfftfreq(n, d=1/44100)].  The other sums, products and absolute
    values are the ones of the source, taken exactly.

    Library calls.  [np.abs(np.fft.rfft(x))] is not computable over [Q]; it is
    the parameter [rfft_abs] of the functions that call it.  [np.max],
    [np.fft.rfftfreq], [np.interp], [np.zeros] and [scipy.signal.find_peaks]
    are modelled from their documented behaviour in the modules [Numpy] and
    [Scipy].

    Blocks.  The stream is opened with [channels=1], so a block is an N x 1
    array; a block is modelled by its column 0, a [list Q].  A block is a
    value: once enqueued it keeps the samples it was enqueued with.

    Time.  [time.time()] is an argument of the functions that read the
    clock. *)

From Stdlib Require Import QArith Qminmax Qabs String List Lia Lqa Bool Arith ZArith.
From Stdlib Require Import Sorted Permutation Qround Qpower.
Import ListNotations.
Open Scope Q_scope.

(** ** Python values shared by the classes *)

Definition frame := list Q.

Inductive exn := AttributeError | ValueError.

Inductive result (A : Type) :=
| Ok (a : A)
| Raise (e : exn).
Arguments Ok {A} a.
Arguments Raise {A} e.

Definition Qltb (x y : Q) : bool := negb (Qle_bool y x).

Definition nat_to_Q (n : nat) : Q := inject_Z (Z.of_nat n).

(** [a ** n] for a natural exponent. *)
Fixpoint Qpow (a : Q) (n : nat) : Q :=
  match n with
  | O => 1
  | S n' => a * Qpow a n'
  end.

(** Python truth value of a [str]: false exactly for the empty string. *)
Definition truthy (s : string) : bool :=
  match s with EmptyString => false | String _ _ => true end.

(** ** IEEE binary64 *)

Module Float64.

Definition pow2 (z : Z) : Q := 2 ^ z.

(** The integer part of the binary logarithm of a positive rational. *)
Definition ilog2 (x : Q) : Z :=
  let L := (Z.log2 (Qnum x) - Z.log2 (Zpos (Qden x)))%Z in
  if Qle_bool (pow2 L) x then L else (L - 1)%Z.

(** The nearest integer, the even one of two equally near. *)
Definition rne (y : Q) : Z :=
  let f := Qfloor y in
  match Qcompare (y - inject_Z f) (1 # 2) with
  | Lt => f
  | Gt => (f + 1)%Z
  | Eq => if Z.even f then f else (f + 1)%Z
  end.

(** The exponent of the last place of a positive [x]: 53 significant bits,
    and no place below [2^-1074] (subnormal numbers). *)
Definition exponent (x : Q) : Z := Z.max (ilog2 x - 52) (-1074).

Definition round_pos (x : Q) : Q :=
  inject_Z (rne (x / pow2 (exponent x))) * pow2 (exponent x).

(** The double nearest to [x].  Overflow to infinity is left out: the
    numbers rounded here are a product with 0.68 and frequencies of at most
    44100 Hz. *)
Definition round (x : Q) : Q :=
  match Qnum x with
  | Z0 => 0
  | Zpos _ => round_pos x
  | Zneg _ => - round_pos (- x)
  end.

End Float64.

(** ** numpy *)

Module Numpy.

(** [np.zeros(n)] on one column. *)
Definition zeros (n : nat) : frame := repeat 0 n.

(** [np.zeros_like(a)]. *)
Definition zeros_like (a : frame) : frame := zeros (length a).

(** [np.max(a)].  numpy raises on an empty array; the spectrum of a non-empty
    block has at least one bin, so callers never reach the first case. *)
Definition np_max (a : list Q) : Q :=
  match a with
  | [] => 0
  | x :: rest => fold_left Qmax rest x
  end.

(** [np.fft.rfftfreq(n, d)]: [val = 1.0/(n*d)], the result is
    [arange(0, n//2 + 1, dtype=int) * val].  The product [n*d], the quotient
    and each product [k * val] are doubles.  ([n] and [k] turn into doubles
    unchanged as long as they are below [2^53].) *)
Definition rfftfreq (n : nat) (d : Q) : list Q :=
  let val := Float64.round (1 / Float64.round (nat_to_Q n * d)) in
  map (fun k => Float64.round (nat_to_Q k * val)) (seq 0 (n / 2 + 1)).

(** [np.interp(x, (xp0, xp1), (fp0, fp1))] with two sample points: the end
    values outside [xp0, xp1], the chord in between. *)
Definition interp (x : Q) (xp fp : Q * Q) : Q :=
  let '(xp0, xp1) := xp in
  let '(fp0, fp1) := fp in
  if Qle_bool x xp0 then fp0
  else if Qle_bool xp1 x then fp1
  else (fp1 - fp0) / (xp1 - xp0) * (x - xp0) + fp0.

End Numpy.

(** ** scipy.signal.find_peaks *)

Module Scipy.

(** [_local_maxima_1d]: one pass over the samples.  [start] is [Some l] while
    the scan is on a plateau that was entered by a strict rise at index [l];
    a strict fall closes it and reports the midpoint [(l + r) // 2].  The first
    and the last sample are never peaks. *)
Fixpoint local_maxima_scan (i : nat) (prev : Q) (start : option nat)
         (xs : list Q) : list nat :=
  match xs with
  | [] => []
  | x :: rest =>
      match x ?= prev with
      | Gt => local_maxima_scan (S i) x (Some i) rest
      | Eq => local_maxima_scan (S i) x start rest
      | Lt =>
          match start with
          | Some l => ((l + (i - 1)) / 2)%nat :: local_maxima_scan (S i) x None rest
          | None => local_maxima_scan (S i) x None rest
          end
      end
  end.

Definition local_maxima_1d (x : list Q) : list nat :=
  match x with
  | [] => []
  | x0 :: rest => local_maxima_scan 1 x0 None rest
  end.

(** [_select_by_property] with a lower bound only: [hmin <= x[peak]]. *)
Definition select_by_height (x : list Q) (hmin : Q) (peaks : list nat) : list nat :=
  filter (fun p => Qle_bool hmin (nth p x 0)) peaks.

Definition nat_dist (a b : nat) : nat := ((a - b) + (b - a))%nat.

(** Peaks in the order [_select_by_peak_distance] visits them: highest first.
    numpy's [argsort] leaves the order of equal heights open; here the later
    index comes first. *)
Fixpoint insert_by_priority (priority : nat -> Q) (p : nat) (l : list nat) : list nat :=
  match l with
  | [] => [p]
  | q :: l' =>
      if Qltb (priority q) (priority p) then p :: l
      else q :: insert_by_priority priority p l'
  end.

Definition by_priority (priority : nat -> Q) (peaks : list nat) : list nat :=
  fold_right (insert_by_priority priority) [] peaks.

(** One visit of [_select_by_peak_distance]: a peak that is still kept removes
    every other peak closer than [distance]. *)
Definition visit_peak (distance : nat) (kept : list nat) (p : nat) : list nat :=
  if existsb (Nat.eqb p) kept
  then filter (fun q => Nat.eqb q p || (distance <=? nat_dist q p)%nat) kept
  else kept.

Definition select_by_peak_distance (peaks : list nat) (priority : nat -> Q)
           (distance : nat) : list nat :=
  fold_left (visit_peak distance) (by_priority priority peaks) peaks.

(** [find_peaks(x, height=h, distance=d)]: local maxima, then the height
    condition, then the distance condition. *)
Definition find_peaks (x : list Q) (height : Q) (distance : nat) : list nat :=
  let peaks := select_by_height x height (local_maxima_1d x) in
  select_by_peak_distance peaks (fun p => nth p x 0) distance.

End Scipy.

(** ** class DTMFDetector *)

Module DTMFDetector.

Record t := {
  delay : Q;
  last_detection_time : Q;
  detection_queue : list frame
}.

(** The [dtmf_freqs] dict, in insertion order, which is the order
    [dict.items()] iterates in. *)
Definition dtmf_freqs : list (string * (Q * Q)) :=
  [ ("1", (697, 1209)); ("2", (697, 1336)); ("3", (697, 1477)); ("A", (697, 1633));
    ("4", (770, 1209)); ("5", (770, 1336)); ("6", (770, 1477)); ("B", (770, 1633));
    ("7", (852, 1209)); ("8", (852, 1336)); ("9", (852, 1477)); ("C", (852, 1633));
    ("*", (941, 1209)); ("0", (941, 1336)); ("#", (941, 1477)); ("D", (941, 1633)) ]%string.

(** [__init__], with [time.time()] read as [now]. *)
Definition init (now : Q) : t :=
  {| delay := 2 # 10; last_detection_time := now; detection_queue := [] |}.

Definition detect_dtmf (audio_data : frame) (self : t) : t :=
  {| delay := delay self;
     last_detection_time := last_detection_time self;
     detection_queue := detection_queue self ++ [audio_data] |}.

(** Line 53: the frequency axis [freq] of a block of [n] samples.  The
    spacing [1/44100] is a quotient of two [int]s, a double. *)
Definition freq (n : nat) : list Q :=
  Numpy.rfftfreq n (Float64.round (1 / 44100)).

(** Line 56: the product of a double and the literal [0.68], a double. *)
Definition peak_height (magnitudes : list Q) : Q :=
  Float64.round (Numpy.np_max magnitudes * Float64.round (68 # 100)).

Definition peaks (magnitudes : list Q) : list nat :=
  Scipy.find_peaks magnitudes (peak_height magnitudes) 2.

Definition valid_range : Q * Q := (600, 1700).

(** Lines 53-61: [detected_freqs] after both masks, for a block of [n]
    samples with magnitude spectrum [magnitudes]. *)
Definition detected_freqs (n : nat) (magnitudes : list Q) : list Q :=
  let loud := filter (fun p => Qltb 13 (nth p magnitudes 0)) (peaks magnitudes) in
  let detected := map (fun p => nth p (freq n) 0) loud in
  filter (fun f => Qle_bool (fst valid_range) f && Qle_bool f (snd valid_range)) detected.

(** [sorted]: stable, ascending. *)
Fixpoint insert_sorted (x : Q) (l : list Q) : list Q :=
  match l with
  | [] => [x]
  | y :: l' => if Qltb x y then x :: l else y :: insert_sorted x l'
  end.

Definition sorted (l : list Q) : list Q :=
  fold_left (fun acc x => insert_sorted x acc) l [].

(** Lines 67-69: the pairs [(f[i], f[i+1])]. *)
Fixpoint possible_pairs (fs : list Q) : list (Q * Q) :=
  match fs with
  | a :: ((b :: _) as rest) => (a, b) :: possible_pairs rest
  | _ => []
  end.

Definition distance (pair : Q * Q) (low_freq high_freq : Q) : Q :=
  Qabs (fst pair - low_freq) + Qabs (snd pair - high_freq).

(** The loop state: [best_match] and [min_distance], where [None] stands for
    Python's [None] and for [float('inf')]. *)
Definition match_state : Type := option string * option Q.

Definition below (d : Q) (min_distance : option Q) : bool :=
  match min_distance with
  | None => true
  | Some m => Qltb d m
  end.

Definition try_pair (key : string) (low_freq high_freq : Q)
           (st : match_state) (pair : Q * Q) : match_state :=
  let d := distance pair low_freq high_freq in
  if below d (snd st) then (Some key, Some d) else st.

Definition try_key (pairs : list (Q * Q)) (st : match_state)
           (item : string * (Q * Q)) : match_state :=
  let '(key, (low_freq, high_freq)) := item in
  fold_left (try_pair key low_freq high_freq) pairs st.

Definition best_match (pairs : list (Q * Q)) : match_state :=
  fold_left (try_key pairs) dtmf_freqs (None, None).

Section Transform.

Variable rfft_abs : frame -> list Q.

(** [detect_from_data]: the result is the argument of [dtmf_detected.emit],
    [None] when the method returns without emitting. *)
Definition detect_from_data (audio_data : frame) : option string :=
  if (length audio_data =? 0)%nat then None
  else
    let magnitudes := rfft_abs audio_data in
    let freqs := detected_freqs (length audio_data) magnitudes in
    if (length freqs <? 2)%nat then None
    else
      let pairs := possible_pairs (sorted freqs) in
      match fst (best_match pairs) with
      | Some key => if truthy key then Some key else None
      | None => None
      end.

(** What one call of [process_queue] did: the detector afterwards, the block
    it handed to [detect_from_data], the symbol that call emitted. *)
Record tick := {
  after : t;
  analysed : option frame;
  emitted : option string
}.

(** [process_queue], with [time.time()] read as [current_time]. *)
Definition process_queue (current_time : Q) (self : t) : tick :=
  if Qle_bool (delay self) (current_time - last_detection_time self)
  then
    match detection_queue self with
    | audio_data :: rest =>
        {| after := {| delay := delay self;
                       last_detection_time := current_time;
                       detection_queue := rest |};
           analysed := Some audio_data;
           emitted := detect_from_data audio_data |}
    | [] => {| after := self; analysed := None; emitted := None |}
    end
  else {| after := self; analysed := None; emitted := None |}.

End Transform.

End DTMFDetector.

(** ** class AudioVisualizer *)

Module AudioVisualizer.

(** [height] is the widget height [self.height()] Qt reports, a
    non-negative [int]. *)
Record t := {
  level : Q;
  smoothed_level : Q;
  smoothing_factor : Q;
  height : nat
}.

Definition init (h : nat) : t :=
  {| level := 0; smoothed_level := 0; smoothing_factor := 25 # 100; height := h |}.

Section Transform.

Variable rfft_abs : frame -> list Q.

(** Lines 94-106 of [update_bars]: the local [target_level]. *)
Definition target_level (self : t) (audio_data : frame) : Q :=
  if (length audio_data =? 0)%nat then 0
  else
    let magnitudes := rfft_abs audio_data in
    let max_magnitude := Numpy.np_max magnitudes in
    let max_magnitude := if Qeq_bool max_magnitude 0 then 1 else max_magnitude in
    Numpy.interp max_magnitude (0, 100) (0, nat_to_Q (height self)).

Definition update_bars (audio_data : frame) (self : t) : t :=
  let target := target_level self audio_data in
  {| level := level self;
     smoothed_level :=
       smoothing_factor self * target
       + (1 - smoothing_factor self) * smoothed_level self;
     smoothing_factor := smoothing_factor self;
     height := height self |}.

End Transform.

End AudioVisualizer.

(** ** class AudioThread *)

Module AudioThread.

(** [visualizer] and [main_window] hold references: [true] for the object,
    [false] for [None].  The objects themselves live in the [heap] the
    callback runs against. *)
Record t := {
  input_device : option Z;
  output_device : option Z;
  visualizer : bool;
  main_window : bool;
  running : bool;
  buffer_size : Q;
  sample_rate : Q;
  detector : DTMFDetector.t
}.

(** The two objects a thread can reach through its references: the window's
    [stop_transition] attribute and the visualizer widget. *)
Record heap := {
  stop_transition : bool;
  widget : AudioVisualizer.t
}.

(** [__init__], with the [time.time()] of [DTMFDetector()] read as [now]. *)
Definition init (input output : option Z) (vis win : bool) (now : Q) : t :=
  {| input_device := input;
     output_device := output;
     visualizer := vis;
     main_window := win;
     running := false;
     buffer_size := 2048;
     sample_rate := 44100;
     detector := DTMFDetector.init now |}.

Definition with_detector (self : t) (d : DTMFDetector.t) : t :=
  {| input_device := input_device self;
     output_device := output_device self;
     visualizer := visualizer self;
     main_window := main_window self;
     running := running self;
     buffer_size := buffer_size self;
     sample_rate := sample_rate self;
     detector := d |}.

Definition with_widget (h : heap) (v : AudioVisualizer.t) : heap :=
  {| stop_transition := stop_transition h; widget := v |}.

(** [outdata[:] = src]: numpy copies when the lengths agree, broadcasts a
    single row, and raises otherwise. *)
Definition assign (outdata src : frame) : result frame :=
  if (length src =? length outdata)%nat then Ok src
  else match src with
       | [x] => Ok (repeat x (length outdata))
       | _ => Raise ValueError
       end.

(** What one call of [audio_callback] leaves behind. *)
Record callback := {
  thread : t;
  objects : heap;
  outdata_after : frame;
  audio_data_signal : list frame
}.

Section Transform.

Variable rfft_abs : frame -> list Q.

(** [audio_callback].  The [print] of a non-empty [status] has no effect on
    the state and is left out. *)
Definition audio_callback (self : t) (h : heap) (indata outdata : frame)
  : result callback :=
  if main_window self && stop_transition h then
    if visualizer self then
      let v := AudioVisualizer.update_bars rfft_abs (Numpy.zeros_like indata) (widget h) in
      match assign outdata (Numpy.zeros_like outdata) with
      | Ok out =>
          Ok {| thread := self; objects := with_widget h v;
                outdata_after := out; audio_data_signal := [] |}
      | Raise e => Raise e
      end
    else Raise AttributeError
  else
    match assign outdata indata with
    | Ok out =>
        let v := if visualizer self
                 then AudioVisualizer.update_bars rfft_abs indata (widget h)
                 else widget h in
        Ok {| thread := with_detector self (DTMFDetector.detect_dtmf indata (detector self));
              objects := with_widget h v;
              outdata_after := out;
              audio_data_signal := [indata] |}
    | Raise e => Raise e
    end.

End Transform.

End AudioThread.

(** ** class MainWindow *)

Module MainWindow.

(** The attributes of the window the pipeline depends on.  [visualizer] is the
    one widget, created in [__init__]; a running thread holds a reference to
    it. *)
Record t := {
  stop_transition : bool;
  visualizer : AudioVisualizer.t;
  audio_thread : option AudioThread.t;
  input_combo : option Z;
  output_combo : option Z
}.

Definition init (h : nat) (input output : option Z) : t :=
  {| stop_transition := false;
     visualizer := AudioVisualizer.init h;
     audio_thread := None;
     input_combo := input;
     output_combo := output |}.

(** [start_detection]: a new [AudioThread(input_device, output_device,
    self.visualizer)] is built at time [now] and started; [run] sets its
    [running] flag. *)
Definition start_detection (now : Q) (self : t) : t :=
  let th := AudioThread.init (input_combo self) (output_combo self) true false now in
  let th := {| AudioThread.input_device := AudioThread.input_device th;
               AudioThread.output_device := AudioThread.output_device th;
               AudioThread.visualizer := AudioThread.visualizer th;
               AudioThread.main_window := AudioThread.main_window th;
               AudioThread.running := true;
               AudioThread.buffer_size := AudioThread.buffer_size th;
               AudioThread.sample_rate := AudioThread.sample_rate th;
               AudioThread.detector := AudioThread.detector th |} in
  {| stop_transition := false;
     visualizer := visualizer self;
     audio_thread := Some th;
     input_combo := input_combo self;
     output_combo := output_combo self |}.

Definition stop_detection (self : t) : t :=
  match audio_thread self with
  | Some _ =>
      {| stop_transition := true;
         visualizer := visualizer self;
         audio_thread := None;
         input_combo := input_combo self;
         output_combo := output_combo self |}
  | None => self
  end.

(** [set_sample_rate], [set_timing], [set_buffer_size]: without a thread the
    value is dropped; with one, the call goes to [set_sample_rate],
    [set_delay] or [set_buffer_size] of [AudioThread], which the class does
    not define, nor does [QThread]. *)
Definition set_sample_rate (sample_rate : Q) (self : t) : result t :=
  match audio_thread self with
  | Some _ => Raise AttributeError
  | None => Ok self
  end.

Definition set_timing (delay : Q) (self : t) : result t :=
  match audio_thread self with
  | Some _ => Raise AttributeError
  | None => Ok self
  end.

Definition set_buffer_size (buffer_size : Q) (self : t) : result t :=
  match audio_thread self with
  | Some _ => Raise AttributeError
  | None => Ok self
  end.

Section Transform.

Variable rfft_abs : frame -> list Q.

(** [update_visualizer_transition], the slot of the 75 ms timer.  The widget
    object is always truthy. *)
Definition update_visualizer_transition (self : t) : t :=
  if stop_transition self then
    let v := visualizer self in
    {| stop_transition := stop_transition self;
       visualizer :=
         AudioVisualizer.update_bars rfft_abs
           (Numpy.zeros (AudioVisualizer.height v)) v;
       audio_thread := audio_thread self;
       input_combo := input_combo self;
       output_combo := output_combo self |}
  else self.

End Transform.

End MainWindow.

(** ** Runs of the detector

    The callback thread appends blocks, the loop of [AudioThread.run] calls
    [process_queue] every 100 ms; a run is any interleaving of the two. *)

Module Schedule.

Inductive op :=
| Enqueue (audio_data : frame)
| Tick (current_time : Q).

Section Transform.

Variable rfft_abs : frame -> list Q.

(** The detector after the operations, with the blocks that were handed to
    [detect_from_data], oldest first. *)
Fixpoint run (ops : list op) (d : DTMFDetector.t) : DTMFDetector.t * list frame :=
  match ops with
  | [] => (d, [])
  | Enqueue audio_data :: ops' => run ops' (DTMFDetector.detect_dtmf audio_data d)
  | Tick current_time :: ops' =>
      let r := DTMFDetector.process_queue rfft_abs current_time d in
      let '(d', done) := run ops' (DTMFDetector.after r) in
      match DTMFDetector.analysed r with
      | Some f => (d', f :: done)
      | None => (d', done)
      end
  end.

End Transform.

(** The blocks the operations enqueue, in arrival order. *)
Fixpoint arrivals (ops : list op) : list frame :=
  match ops with
  | [] => []
  | Enqueue audio_data :: ops' => audio_data :: arrivals ops'
  | Tick _ :: ops' => arrivals ops'
  end.

End Schedule.

(** ** Concrete data for the examples

    [spectrum_as_given] stands in for the transform where an example needs a
    computable one: it reads the block as its own magnitude spectrum.  Like
    the transform it returns [n/2 + 1] non-negative bins and maps silence to
    zeros. *)

Module Samples.

Definition spectrum_as_given (x : frame) : list Q :=
  firstn (length x / 2 + 1) (map Qabs x).

(** A block of [n] zeros with the value [snd b] at each index [fst b]. *)
Definition spikes (bins : list (nat * Q)) (n : nat) : frame :=
  map (fun k =>
         match find (fun b => Nat.eqb (fst b) k) bins with
         | Some b => snd b
         | None => 0
         end) (seq 0 n).

(** The bin of a block of [n] samples whose frequency is nearest to [f]. *)
Definition nearest_bin (f : Q) (n : nat) : nat :=
  Z.to_nat (Qfloor (f * nat_to_Q n / 44100 + (1 # 2))).

(** The spectrum of a block of [n] samples that has one spike of height
    [a] at the bin nearest to each of the two tones, and nothing else. *)
Definition two_spike_spectrum (tones : Q * Q) (a : Q) (n : nat) : list Q :=
  spikes [(nearest_bin (fst tones) n, a); (nearest_bin (snd tones) n, a)]
         (n / 2 + 1).

(** Two spikes in a block of 128: bins 2 and 4, 689 Hz and 1378 Hz. *)
Definition two_tone : frame := spikes [(2%nat, 1000); (4%nat, 900)] 128.

(** A detector built at time 0. *)
Definition fresh_detector : DTMFDetector.t := DTMFDetector.init 0.

(** A thread that was given a window and a visualizer, and the objects it
    reaches while the window's [stop_transition] is set. *)
Definition muted_thread : AudioThread.t := AudioThread.init None None true true 0.

Definition muted_heap : AudioThread.heap :=
  {| AudioThread.stop_transition := true;
     AudioThread.widget := AudioVisualizer.init 400 |}.

(** A window 400 pixels high, before the first start and after a stop. *)
Definition new_window : MainWindow.t := MainWindow.init 400 None None.

Definition stopped_window : MainWindow.t :=
  MainWindow.stop_detection (MainWindow.start_detection 0 new_window).

End Samples.

(** ** The rest of the classes *)

(** *** AudioVisualizer.paintEvent *)

Module Painting.

(** Python's [int(x)] on a float: truncation toward zero. *)
Definition int (x : Q) : Z :=
  if Qle_bool 0 x then Qfloor x else Qceiling x.

(** The arguments of [painter.drawRect(x, y, w, h)]. *)
Record rect := {
  rect_x : Z;
  rect_y : Z;
  rect_w : Z;
  rect_h : Z
}.

(** [paintEvent], with [self.width()] read as [bar_width]. *)
Definition paintEvent (bar_width : Z) (self : AudioVisualizer.t) : rect :=
  let height := int (AudioVisualizer.smoothed_level self) in
  {| rect_x := 0;
     rect_y := Z.of_nat (AudioVisualizer.height self) - height;
     rect_w := bar_width;
     rect_h := height |}.

End Painting.

(** *** What a run of the detector shows from outside *)

Module Timeline.

Section Transform.

Variable rfft_abs : frame -> list Q.

(** The clock readings of the ticks that analysed a block, oldest first. *)
Fixpoint analysis_times (ops : list Schedule.op) (d : DTMFDetector.t) : list Q :=
  match ops with
  | [] => []
  | Schedule.Enqueue audio_data :: ops' =>
      analysis_times ops' (DTMFDetector.detect_dtmf audio_data d)
  | Schedule.Tick current_time :: ops' =>
      let r := DTMFDetector.process_queue rfft_abs current_time d in
      match DTMFDetector.analysed r with
      | Some _ => current_time :: analysis_times ops' (DTMFDetector.after r)
      | None => analysis_times ops' (DTMFDetector.after r)
      end
  end.

End Transform.

End Timeline.

(** *** class SettingsDialog *)

Module SettingsDialog.

Record t := {
  value_input : string;
  accepted : bool
}.

Section Float.

(** [float(text)]: [None] when Python raises [ValueError]. *)
Variable float : string -> option Q.

(** [accept], for a dialog whose [callback] is a setter of the window.  Only
    [ValueError] is caught; the setters change nothing before they raise. *)
Definition accept (callback : Q -> MainWindow.t -> result MainWindow.t)
           (self : t) (w : MainWindow.t) : result (t * MainWindow.t) :=
  match float (value_input self) with
  | Some value =>
      match callback value w with
      | Ok w' => Ok ({| value_input := value_input self; accepted := true |}, w')
      | Raise ValueError =>
          Ok ({| value_input := "Invalid input"; accepted := accepted self |}, w)
      | Raise e => Raise e
      end
  | None => Ok ({| value_input := "Invalid input"; accepted := accepted self |}, w)
  end.

End Float.

End SettingsDialog.

(** *** The window with its buttons, its text field and its thread

    [Application.t] adds to [MainWindow.t] the widgets the slots touch: whether
    the two buttons are enabled and the paragraphs of [dtmf_output].  The
    stream callback, the loop of [AudioThread.run], the timer and the clicks
    are events; a run is any sequence of them.  Qt does not deliver a click
    to a disabled button. *)

Module Application.

Record t := {
  window : MainWindow.t;
  start_button : bool;
  stop_button : bool;
  dtmf_output : list string
}.

(** [MainWindow.__init__]: [stop_button.setEnabled(False)]. *)
Definition init (h : nat) (input output : option Z) : t :=
  {| window := MainWindow.init h input output;
     start_button := true;
     stop_button := false;
     dtmf_output := [] |}.

Definition with_window (s : t) (w : MainWindow.t) : t :=
  {| window := w;
     start_button := start_button s;
     stop_button := stop_button s;
     dtmf_output := dtmf_output s |}.

(** [start_detection] with lines 443-444. *)
Definition start_detection (now : Q) (s : t) : t :=
  {| window := MainWindow.start_detection now (window s);
     start_button := false;
     stop_button := true;
     dtmf_output := dtmf_output s |}.

(** [stop_detection] with lines 453-454. *)
Definition stop_detection (s : t) : t :=
  {| window := MainWindow.stop_detection (window s);
     start_button := true;
     stop_button := false;
     dtmf_output := dtmf_output s |}.

(** [update_dtmf_label]: [QTextEdit.append] adds a paragraph. *)
Definition update_dtmf_label (dtmf_char : string) (s : t) : t :=
  {| window := window s;
     start_button := start_button s;
     stop_button := stop_button s;
     dtmf_output := dtmf_output s ++ [dtmf_char] |}.

Definition clear_dtmf_output (s : t) : t :=
  {| window := window s;
     start_button := start_button s;
     stop_button := stop_button s;
     dtmf_output := [] |}.

Inductive setting := SampleRate | Timing | BufferSize.

Definition set (which : setting) (value : Q) (w : MainWindow.t) : result MainWindow.t :=
  match which with
  | SampleRate => MainWindow.set_sample_rate value w
  | Timing => MainWindow.set_timing value w
  | BufferSize => MainWindow.set_buffer_size value w
  end.

Inductive event :=
| ClickStart (now : Q)
| ClickStop
| ClickClear
| Timer
| Block (indata outdata : frame)
| Iteration (now : Q)
| Setting (which : setting) (value : Q).

Section Transform.

Variable rfft_abs : frame -> list Q.

(** The stream calls [audio_callback] on the window's thread.  The thread
    reaches the window's [stop_transition] and the window's visualizer; what
    the callback does to the visualizer is seen by the window.  Without a
    thread there is no stream and no call. *)
Definition audio_block (indata outdata : frame) (s : t) : result (t * frame) :=
  let w := window s in
  match MainWindow.audio_thread w with
  | None => Ok (s, outdata)
  | Some th =>
      let h := {| AudioThread.stop_transition := MainWindow.stop_transition w;
                  AudioThread.widget := MainWindow.visualizer w |} in
      match AudioThread.audio_callback rfft_abs th h indata outdata with
      | Ok r =>
          Ok (with_window s
                {| MainWindow.stop_transition := MainWindow.stop_transition w;
                   MainWindow.visualizer :=
                     AudioThread.widget (AudioThread.objects r);
                   MainWindow.audio_thread := Some (AudioThread.thread r);
                   MainWindow.input_combo := MainWindow.input_combo w;
                   MainWindow.output_combo := MainWindow.output_combo w |},
              AudioThread.outdata_after r)
      | Raise e => Raise e
      end
  end.

(** One pass of the loop in [AudioThread.run] after [sd.sleep(100)]:
    [process_queue], and for an emitted symbol the chain
    [handle_dtmf_detected], [dtmf_detected], [update_dtmf_label].  Qt hands
    the symbol to the main thread, which appends it when it gets to it; here
    it is appended at once. *)
Definition iteration (now : Q) (s : t) : t :=
  let w := window s in
  match MainWindow.audio_thread w with
  | None => s
  | Some th =>
      let r := DTMFDetector.process_queue rfft_abs now (AudioThread.detector th) in
      let w' :=
        {| MainWindow.stop_transition := MainWindow.stop_transition w;
           MainWindow.visualizer := MainWindow.visualizer w;
           MainWindow.audio_thread :=
             Some (AudioThread.with_detector th (DTMFDetector.after r));
           MainWindow.input_combo := MainWindow.input_combo w;
           MainWindow.output_combo := MainWindow.output_combo w |} in
      match DTMFDetector.emitted r with
      | Some dtmf_char => update_dtmf_label dtmf_char (with_window s w')
      | None => with_window s w'
      end
  end.

Definition step (e : event) (s : t) : result t :=
  match e with
  | ClickStart now => Ok (if start_button s then start_detection now s else s)
  | ClickStop => Ok (if stop_button s then stop_detection s else s)
  | ClickClear => Ok (clear_dtmf_output s)
  | Timer =>
      Ok (with_window s (MainWindow.update_visualizer_transition rfft_abs (window s)))
  | Block indata outdata =>
      match audio_block indata outdata s with
      | Ok (s', _) => Ok s'
      | Raise e => Raise e
      end
  | Iteration now => Ok (iteration now s)
  | Setting which value =>
      match set which value (window s) with
      | Ok w => Ok (with_window s w)
      | Raise e => Raise e
      end
  end.

Fixpoint run (events : list event) (s : t) : result t :=
  match events with
  | [] => Ok s
  | e :: events' =>
      match step e s with
      | Ok s' => run events' s'
      | Raise e => Raise e
      end
  end.

End Transform.

End Application.

(** *** The values the settings dialogs open with *)

Module Dialogs.

(** [current_rate] of [show_sample_rate_dialog]. *)
Definition current_rate (w : MainWindow.t) : Q :=
  match MainWindow.audio_thread w with
  | Some th => AudioThread.sample_rate th
  | None => 44100
  end.

(** [current_delay] of [show_timing_dialog]. *)
Definition current_delay (w : MainWindow.t) : Q :=
  match MainWindow.audio_thread w with
  | Some th => DTMFDetector.delay (AudioThread.detector th)
  | None => 2 # 10
  end.

(** [current_buffer_size] of [show_buffer_size_dialog]. *)
Definition current_buffer_size (w : MainWindow.t) : Q :=
  match MainWindow.audio_thread w with
  | Some th => AudioThread.buffer_size th
  | None => 2048
  end.

End Dialogs.

(** *** Concrete blocks and runs for the examples *)

Module Scenarios.

(** Spikes at bins 18 and 31 of a block of 1024: 775 Hz and 1335 Hz. *)
Definition near_five : frame :=
  Samples.spikes [(18%nat, 1000); (31%nat, 1000)] 1024.

(** The same kind of block with 100 and with 104 samples. *)
Definition block_of_100 : frame :=
  Samples.spikes [(2%nat, 1000); (4%nat, 1000)] 100.

Definition block_of_104 : frame :=
  Samples.spikes [(2%nat, 1000); (4%nat, 1000)] 104.

(** Three blocks arrive, two ticks are called. *)
Definition burst : list Schedule.op :=
  [Schedule.Enqueue [1]; Schedule.Enqueue [2]; Schedule.Tick 1;
   Schedule.Enqueue [3]; Schedule.Tick (11 # 10)].

(** Start, one block, one pass of the loop. *)
Definition playing : list Application.event :=
  [Application.ClickStart 0;
   Application.Block Samples.two_tone Samples.two_tone;
   Application.Iteration 1].

(** The same, then Stop and one timer tick. *)
Definition played : list Application.event :=
  playing ++ [Application.ClickStop; Application.Timer].

Definition new_application : Application.t := Application.init 400 None None.

(** A meter 400 high showing 2.5. *)
Definition meter_at_2_5 : AudioVisualizer.t :=
  {| AudioVisualizer.level := 0;
     AudioVisualizer.smoothed_level := 5 # 2;
     AudioVisualizer.smoothing_factor := 25 # 100;
     AudioVisualizer.height := 400 |}.

End Scenarios.

(** ** Predicates of the statements *)

(** Index [k] is the midpoint of a flat stretch [l..r] of [x] that is
    strictly higher than the sample before it and the sample after it, both
    of which exist. *)
Definition plateau_midpoint (x : list Q) (k : nat) : Prop :=
  exists l r : nat,
    (0 < l <= r)%nat /\ (r + 1 < length x)%nat /\ k = ((l + r) / 2)%nat
    /\ (forall j, (l <= j <= r)%nat -> nth j x 0 == nth l x 0)
    /\ nth (l - 1) x 0 < nth l x 0
    /\ nth (r + 1) x 0 < nth l x 0.

(** The scan has read [x] up to index [i - 1]; [start] records an open
    plateau. *)
Definition scan_state (x : list Q) (i : nat) (start : option nat) : Prop :=
  (0 < i)%nat
  /\ forall l, start = Some l ->
       (0 < l < i)%nat
       /\ nth (l - 1) x 0 < nth l x 0
       /\ forall j, (l <= j < i)%nat -> nth j x 0 == nth l x 0.

(** [gap d l]: each element of [l] is at least [d] after the one before. *)
Definition gap (d : nat) : list nat -> Prop :=
  StronglySorted (fun a b => (a + d <= b)%nat).

(** The state after the entries [table]: the first entry, in table order,
    that reaches the least distance any entry reaches with any pair. *)
Definition first_minimum (pairs : list (Q * Q)) (table : list (string * (Q * Q)))
           (st : DTMFDetector.match_state) : Prop :=
  exists before key lo hi later pair,
    table = before ++ (key, (lo, hi)) :: later
    /\ In pair pairs
    /\ st = (Some key, Some (DTMFDetector.distance pair lo hi))
    /\ (forall k l h p, In (k, (l, h)) before -> In p pairs ->
          DTMFDetector.distance pair lo hi < DTMFDetector.distance p l h)
    /\ (forall k l h p, In (k, (l, h)) table -> In p pairs ->
          DTMFDetector.distance pair lo hi <= DTMFDetector.distance p l h).

(** Consecutive clock readings in [l] are at least [D] apart. *)
Fixpoint spaced (D : Q) (l : list Q) : Prop :=
  match l with
  | a :: ((b :: _) as rest) => D <= b - a /\ spaced D rest
  | _ => True
  end.

(** The clock reading of a tick is at most [T]. *)
Definition tick_by (T : Q) (o : Schedule.op) : Prop :=
  match o with
  | Schedule.Tick now => now <= T
  | Schedule.Enqueue _ => True
  end.

(** A thread as [start_detection] builds it. *)
Definition thread_defaults (th : AudioThread.t) : Prop :=
  AudioThread.sample_rate th = 44100
  /\ AudioThread.buffer_size th = 2048
  /\ DTMFDetector.delay (AudioThread.detector th) = 2 # 10
  /\ AudioThread.main_window th = false
  /\ AudioThread.visualizer th = true
  /\ AudioThread.running th = true.

(** The buttons tell whether a thread exists, and a thread exists only while
    [stop_transition] is off. *)
Definition consistent (s : Application.t) : Prop :=
  Application.start_button s = negb (Application.stop_button s)
  /\ match MainWindow.audio_thread (Application.window s) with
     | Some th =>
         Application.stop_button s = true
         /\ MainWindow.stop_transition (Application.window s) = false
         /\ thread_defaults th
     | None => Application.stop_button s = false
     end.

(** The meter of a widget [h] high: the level is inside the widget. *)
Definition level_inside (h : nat) (v : AudioVisualizer.t) : Prop :=
  AudioVisualizer.height v = h
  /\ AudioVisualizer.smoothing_factor v = 25 # 100
  /\ 0 <= AudioVisualizer.smoothed_level v <= nat_to_Q h.

Definition table_key (c : string) : Prop :=
  In c (map fst DTMFDetector.dtmf_freqs).

(** * Properties *)

(** ** Rounding to a double *)

Section Rounding.

Import Float64.

Lemma pow2_pos (z : Z) : 0 < pow2 z.
Proof.
  apply Qpower_0_lt. reflexivity.
Qed.

Lemma pow2_plus (a b : Z) : pow2 (a + b) == pow2 a * pow2 b.
Proof.
  apply Qpower_plus. discriminate.
Qed.

Lemma pow2_le (a b : Z) : (a <= b)%Z -> pow2 a <= pow2 b.
Proof.
  intros H. apply Qpower_le_compat_l; [exact H|discriminate].
Qed.

Lemma pow2_lt_inv (a b : Z) : pow2 a < pow2 b -> (a < b)%Z.
Proof.
  intros H. apply (Qpower_lt_compat_l_inv 2); [exact H|reflexivity].
Qed.

Lemma pow2_inject (a : Z) : (0 <= a)%Z -> inject_Z (2 ^ a) == pow2 a.
Proof.
  intros H. apply (Zpower_Qpower 2 a H).
Qed.

Lemma pow2_succ (a : Z) : pow2 (a + 1) == 2 * pow2 a.
Proof.
  rewrite pow2_plus. change (pow2 1) with 2. ring.
Qed.

(** [ilog2 x] is the integer part of the binary logarithm of [x > 0]. *)
Lemma ilog2_spec (x : Q) :
  0 < x -> pow2 (ilog2 x) <= x /\ x < pow2 (ilog2 x + 1).
Proof.
  intros Hx. destruct x as [p q].
  assert (Hp : (0 < p)%Z).
  { unfold Qlt in Hx. simpl in Hx. lia. }
  unfold ilog2. cbn [Qnum Qden].
  set (lp := Z.log2 p). set (lq := Z.log2 (Z.pos q)).
  assert (Hlp : (0 <= lp)%Z) by apply Z.log2_nonneg.
  assert (Hlq : (0 <= lq)%Z) by apply Z.log2_nonneg.
  destruct (Z.log2_spec p Hp) as [Hp1 Hp2].
  destruct (Z.log2_spec (Z.pos q) ltac:(lia)) as [Hq1 Hq2].
  fold lp in Hp1, Hp2. fold lq in Hq1, Hq2.
  rewrite <- Z.add_1_r in Hp2, Hq2.
  assert (HP1 : pow2 lp <= inject_Z p)
    by (rewrite <- pow2_inject by lia; now rewrite <- Zle_Qle).
  assert (HP2 : inject_Z p < pow2 (lp + 1))
    by (rewrite <- pow2_inject by lia; now rewrite <- Zlt_Qlt).
  assert (HQ1 : pow2 lq <= inject_Z (Z.pos q))
    by (rewrite <- pow2_inject by lia; now rewrite <- Zle_Qle).
  assert (HQ2 : inject_Z (Z.pos q) < pow2 (lq + 1))
    by (rewrite <- pow2_inject by lia; now rewrite <- Zlt_Qlt).
  rewrite pow2_succ in HP2, HQ2.
  pose proof (pow2_pos lp) as Ha. pose proof (pow2_pos lq) as Hb.
  pose proof (pow2_pos (lp - lq)) as Hc.
  assert (Hx' : p # q == inject_Z p / inject_Z (Z.pos q)) by apply Qmake_Qdiv.
  assert (HL : pow2 (lp - lq) * pow2 lq == pow2 lp).
  { rewrite <- pow2_plus. now replace (lp - lq + lq)%Z with lp by lia. }
  set (P := inject_Z p) in *. set (D := inject_Z (Z.pos q)) in *.
  set (A := pow2 lp) in *. set (B := pow2 lq) in *.
  set (C := pow2 (lp - lq)) in *.
  assert (HD : 0 < D) by lra.
  (* C/2 < x < 2C *)
  assert (Hup : p # q < 2 * C).
  { rewrite Hx'. apply Qlt_shift_div_r; [exact HD|]. nra. }
  assert (Hlow : C < 2 * (p # q)).
  { rewrite Hx'.
    setoid_replace (2 * (P / D)) with ((2 * P) / D) by (field; lra).
    apply Qlt_shift_div_l; [exact HD|]. nra. }
  destruct (Qle_bool C (p # q)) eqn:E.
  - apply Qle_bool_iff in E. split; [exact E|].
    rewrite pow2_succ. exact Hup.
  - assert (Hlt : p # q < C).
    { apply Qnot_le_lt. intros H. apply Qle_bool_iff in H. congruence. }
    replace (lp - lq - 1 + 1)%Z with (lp - lq)%Z by lia.
    split; [|exact Hlt].
    assert (Hh : 2 * pow2 (lp - lq - 1) == C).
    { rewrite <- pow2_succ. now replace (lp - lq - 1 + 1)%Z with (lp - lq)%Z by lia. }
    lra.
Qed.

Lemma ilog2_le (x y : Q) : 0 < x -> x <= y -> (ilog2 x <= ilog2 y)%Z.
Proof.
  intros Hx Hxy.
  destruct (ilog2_spec x Hx) as [Hx1 _].
  destruct (ilog2_spec y ltac:(lra)) as [_ Hy2].
  assert (H : pow2 (ilog2 x) < pow2 (ilog2 y + 1)) by lra.
  apply pow2_lt_inv in H. lia.
Qed.

Lemma rne_floor (y : Q) : (Qfloor y <= rne y <= Qfloor y + 1)%Z.
Proof.
  unfold rne. destruct (Qcompare _ _); [destruct (Z.even _)| |]; lia.
Qed.

Lemma rne_ge (y : Q) (z : Z) : inject_Z z <= y -> (z <= rne y)%Z.
Proof.
  intros H. pose proof (rne_floor y) as Hr.
  apply Qfloor_resp_le in H. rewrite Qfloor_Z in H. lia.
Qed.

Lemma rne_le (y : Q) (z : Z) : y <= inject_Z z -> (rne y <= z)%Z.
Proof.
  intros H. pose proof (Qfloor_le y) as Hf. pose proof (Qlt_floor y) as Hf'.
  assert (Hfz : (Qfloor y <= z)%Z).
  { apply Qfloor_resp_le in H. now rewrite Qfloor_Z in H. }
  destruct (Z.eq_dec (Qfloor y) z) as [Heq|Hne].
  - subst z. unfold rne.
    assert (Hc : Qcompare (y - inject_Z (Qfloor y)) (1 # 2) = Lt).
    { rewrite <- Qlt_alt. lra. }
    rewrite Hc. lia.
  - pose proof (rne_floor y). lia.
Qed.

Lemma rne_near (y : Q) : Qabs (inject_Z (rne y) - y) <= 1 # 2.
Proof.
  pose proof (Qfloor_le y) as Hf. pose proof (Qlt_floor y) as Hf'.
  rewrite inject_Z_plus in Hf'. change (inject_Z 1) with 1 in Hf'.
  unfold rne.
  destruct (Qcompare_spec (y - inject_Z (Qfloor y)) (1 # 2)) as [H|H|H].
  - destruct (Z.even (Qfloor y)).
    + apply Qabs_case; intros; lra.
    + rewrite inject_Z_plus. change (inject_Z 1) with 1.
      apply Qabs_case; intros; lra.
  - apply Qabs_case; intros; lra.
  - rewrite inject_Z_plus. change (inject_Z 1) with 1.
    apply Qabs_case; intros; lra.
Qed.

Lemma rne_monotone (y1 y2 : Q) : y1 <= y2 -> (rne y1 <= rne y2)%Z.
Proof.
  intros H.
  pose proof (Qfloor_resp_le _ _ H) as Hf.
  pose proof (rne_floor y1) as H1. pose proof (rne_floor y2) as H2.
  destruct (Z.eq_dec (Qfloor y1) (Qfloor y2)) as [Heq|Hne]; [|lia].
  unfold rne in *. rewrite <- Heq in *.
  destruct (Qcompare_spec (y1 - inject_Z (Qfloor y1)) (1 # 2)) as [Ha|Ha|Ha];
    destruct (Qcompare_spec (y2 - inject_Z (Qfloor y1)) (1 # 2)) as [Hb|Hb|Hb];
    try destruct (Z.even (Qfloor y1)); try lia; exfalso; lra.
Qed.

Lemma exponent_spec (x : Q) :
  0 < x ->
  x < pow2 (exponent x + 53)
  /\ ((-1074 < exponent x)%Z -> pow2 (exponent x + 52) <= x).
Proof.
  intros Hx. destruct (ilog2_spec x Hx) as [H1 H2]. unfold exponent. split.
  - eapply Qlt_le_trans; [exact H2|]. apply pow2_le. lia.
  - intros He.
    replace (Z.max (ilog2 x - 52) (-1074) + 52)%Z with (ilog2 x) by lia.
    exact H1.
Qed.

Lemma exponent_le (x y : Q) : 0 < x -> x <= y -> (exponent x <= exponent y)%Z.
Proof.
  intros Hx Hxy. pose proof (ilog2_le x y Hx Hxy). unfold exponent. lia.
Qed.

Lemma scaled_lt (x : Q) (e k : Z) :
  x < pow2 (e + k) -> x / pow2 e < pow2 k.
Proof.
  intros H. pose proof (pow2_pos e).
  apply Qlt_shift_div_r; [assumption|].
  rewrite <- pow2_plus. now replace (k + e)%Z with (e + k)%Z by lia.
Qed.

Lemma scaled_ge (x : Q) (e k : Z) :
  pow2 (e + k) <= x -> pow2 k <= x / pow2 e.
Proof.
  intros H. pose proof (pow2_pos e).
  apply Qle_shift_div_l; [assumption|].
  rewrite <- pow2_plus. now replace (k + e)%Z with (e + k)%Z by lia.
Qed.

Lemma round_pos_monotone (x y : Q) :
  0 < x -> x <= y -> round_pos x <= round_pos y.
Proof.
  intros Hx Hxy. assert (Hy : 0 < y) by lra.
  pose proof (exponent_le x y Hx Hxy) as He.
  destruct (exponent_spec x Hx) as [Hx2 _].
  destruct (exponent_spec y Hy) as [_ Hy1].
  unfold round_pos.
  pose proof (pow2_pos (exponent x)) as Hpx.
  pose proof (pow2_pos (exponent y)) as Hpy.
  destruct (Z.eq_dec (exponent x) (exponent y)) as [Heq|Hne].
  - rewrite Heq. apply Qmult_le_compat_r; [|lra].
    rewrite <- Zle_Qle. apply rne_monotone.
    apply Qmult_le_compat_r; [exact Hxy|].
    apply Qlt_le_weak, Qinv_lt_0_compat, Hpy.
  - assert (Hlt : (exponent x < exponent y)%Z) by lia.
    assert (Hs : (-1074 < exponent y)%Z) by (unfold exponent in *; lia).
    specialize (Hy1 Hs).
    assert (H1 : (rne (x / pow2 (exponent x)) <= 2 ^ 53)%Z).
    { apply rne_le. rewrite pow2_inject by lia.
      apply Qlt_le_weak, scaled_lt, Hx2. }
    assert (H2 : (2 ^ 52 <= rne (y / pow2 (exponent y)))%Z).
    { apply rne_ge. rewrite pow2_inject by lia. apply scaled_ge, Hy1. }
    rewrite Zle_Qle in H1, H2.
    rewrite pow2_inject in H1, H2 by lia.
    assert (H3 : pow2 53 * pow2 (exponent x) <= pow2 52 * pow2 (exponent y)).
    { rewrite <- !pow2_plus. apply pow2_le. lia. }
    pose proof (pow2_pos 52). pose proof (pow2_pos 53).
    eapply Qle_trans; [apply Qmult_le_compat_r; [exact H1|lra]|].
    eapply Qle_trans; [exact H3|].
    apply Qmult_le_compat_r; [exact H2|lra].
Qed.

Lemma round_pos_nonneg (x : Q) : 0 < x -> 0 <= round_pos x.
Proof.
  intros Hx. unfold round_pos. pose proof (pow2_pos (exponent x)) as Hp.
  apply Qmult_le_0_compat; [|lra].
  change 0 with (inject_Z 0). rewrite <- Zle_Qle. apply rne_ge.
  change (inject_Z 0) with 0.
  apply Qle_shift_div_l; [exact Hp|]. lra.
Qed.

Lemma Qnum_sign (x : Q) :
  match Qnum x with
  | Z0 => x == 0
  | Zpos _ => 0 < x
  | Zneg _ => x < 0
  end.
Proof.
  destruct x as [[|p|p] q]; unfold Qeq, Qlt; simpl; lia.
Qed.

Lemma round_nonneg (x : Q) : 0 <= x -> 0 <= round x.
Proof.
  intros Hx. unfold round. pose proof (Qnum_sign x) as Hs.
  destruct (Qnum x); [lra|now apply round_pos_nonneg|lra].
Qed.

(** Rounding keeps the order of non-negative numbers. *)
Lemma round_monotone (x y : Q) : 0 <= x -> x <= y -> round x <= round y.
Proof.
  intros Hx Hxy. unfold round at 1. pose proof (Qnum_sign x) as Hs.
  destruct (Qnum x) eqn:Ex.
  - apply round_nonneg. lra.
  - unfold round. pose proof (Qnum_sign y) as Hy.
    destruct (Qnum y); [lra| |lra].
    now apply round_pos_monotone.
  - lra.
Qed.

(** In the normal range rounding moves a number by at most 2^-53 of it. *)
Lemma round_error (x : Q) :
  pow2 (-1022) <= x -> Qabs (round x - x) <= pow2 (-53) * x.
Proof.
  intros Hn. pose proof (pow2_pos (-1022)) as Hm.
  assert (Hx : 0 < x) by lra.
  unfold round. pose proof (Qnum_sign x) as Hs.
  destruct (Qnum x); [lra| |lra].
  destruct (ilog2_spec x Hx) as [H1 H2].
  assert (Hi : (-1022 <= ilog2 x)%Z).
  { assert (H : pow2 (-1022) < pow2 (ilog2 x + 1)) by lra.
    apply pow2_lt_inv in H. lia. }
  assert (He : exponent x = (ilog2 x - 52)%Z) by (unfold exponent; lia).
  unfold round_pos. rewrite He.
  set (e := (ilog2 x - 52)%Z). pose proof (pow2_pos e) as Hp.
  pose proof (rne_near (x / pow2 e)) as Hr.
  assert (Hx2 : pow2 e * pow2 52 <= x).
  { rewrite <- pow2_plus. now replace (e + 52)%Z with (ilog2 x) by (unfold e; lia). }
  assert (Hhalf : pow2 (-53) * pow2 52 == 1 # 2) by reflexivity.
  set (r := inject_Z (rne (x / pow2 e))) in *.
  assert (Hd : r * pow2 e - x == (r - x / pow2 e) * pow2 e) by (field; lra).
  rewrite Hd, Qabs_Qmult, (Qabs_pos (pow2 e)) by lra.
  pose proof (pow2_pos 52). pose proof (pow2_pos (-53)).
  assert (Hb : Qabs (r - x / pow2 e) * pow2 e <= (1 # 2) * pow2 e)
    by (apply Qmult_le_compat_r; lra).
  assert (Hc : (1 # 2) * pow2 e <= pow2 (-53) * x).
  { rewrite <- Hhalf. 
    setoid_replace (pow2 (-53) * pow2 52 * pow2 e) with (pow2 (-53) * (pow2 e * pow2 52)) by ring.
    apply Qmult_le_l; lra. }
  lra.
Qed.

End Rounding.

(** ** The queue and its rate limit *)

Section QueueProperties.

Variable rfft_abs : frame -> list Q.

Import DTMFDetector.

Lemma process_queue_due (now : Q) (d : t) (f : frame) (rest : list frame) :
  delay d <= now - last_detection_time d ->
  detection_queue d = f :: rest ->
  process_queue rfft_abs now d =
    {| after := {| delay := delay d; last_detection_time := now;
                   detection_queue := rest |};
       analysed := Some f;
       emitted := detect_from_data rfft_abs f |}.
Proof.
  intros Hdue Hq. unfold process_queue.
  apply Qle_bool_iff in Hdue. rewrite Hdue, Hq. reflexivity.
Qed.

Lemma process_queue_early (now : Q) (d : t) :
  now - last_detection_time d < delay d ->
  process_queue rfft_abs now d = {| after := d; analysed := None; emitted := None |}.
Proof.
  intros Hearly. unfold process_queue.
  destruct (Qle_bool (delay d) (now - last_detection_time d)) eqn:E; [|reflexivity].
  apply Qle_bool_iff in E. lra.
Qed.

Lemma process_queue_empty (now : Q) (d : t) :
  detection_queue d = [] ->
  process_queue rfft_abs now d = {| after := d; analysed := None; emitted := None |}.
Proof.
  intros Hq. unfold process_queue. rewrite Hq.
  destruct (Qle_bool _ _); reflexivity.
Qed.

(** A tick moves at most the head of the queue to the analysed side. *)
Lemma process_queue_conserves (now : Q) (d : t) :
  match analysed (process_queue rfft_abs now d) with
  | Some f => f :: detection_queue (after (process_queue rfft_abs now d))
  | None => detection_queue (after (process_queue rfft_abs now d))
  end = detection_queue d.
Proof.
  unfold process_queue.
  destruct (Qle_bool _ _); [|reflexivity].
  destruct (detection_queue d) eqn:E; simpl; congruence.
Qed.

(** C4 (as amended): with delay [D], two blocks enqueued back-to-back on an
    empty queue and a tick that is due ([now1 - last_detection_time >= D]):
    that tick analyses the first block only and leaves the second queued; a
    further tick at [now2] analyses the second when [now2 - now1 >= D] and
    does nothing when [now2 - now1 < D].  In general a tick analyses the
    oldest queued block and sets [last_detection_time] to [now] exactly when
    [now - last_detection_time >= delay] and the queue is non-empty, and
    leaves the detector as it was otherwise. *)
Theorem process_queue_rate_limit (d : t) (f1 f2 : frame) (now1 now2 : Q) :
  detection_queue d = [] ->
  delay d <= now1 - last_detection_time d ->
  let first := process_queue rfft_abs now1 (detect_dtmf f2 (detect_dtmf f1 d)) in
  let second := process_queue rfft_abs now2 (after first) in
  (analysed first = Some f1
   /\ detection_queue (after first) = [f2]
   /\ last_detection_time (after first) = now1)
  /\ (delay d <= now2 - now1 ->
      analysed second = Some f2
      /\ detection_queue (after second) = []
      /\ last_detection_time (after second) = now2)
  /\ (now2 - now1 < delay d ->
      analysed second = None /\ after second = after first)
  /\ (forall (now : Q) (s : t),
        (exists f, analysed (process_queue rfft_abs now s) = Some f)
        <-> (delay s <= now - last_detection_time s /\ detection_queue s <> []))
  /\ (forall (now : Q) (s : t) (f : frame),
        analysed (process_queue rfft_abs now s) = Some f ->
        exists rest,
          detection_queue s = f :: rest
          /\ after (process_queue rfft_abs now s) =
               {| delay := delay s; last_detection_time := now;
                  detection_queue := rest |}
          /\ emitted (process_queue rfft_abs now s) = detect_from_data rfft_abs f)
  /\ (forall (now : Q) (s : t),
        analysed (process_queue rfft_abs now s) = None ->
        after (process_queue rfft_abs now s) = s
        /\ emitted (process_queue rfft_abs now s) = None).
Proof.
  intros Hempty Hdue first second.
  assert (Hfirst : first =
            {| after := {| delay := delay d; last_detection_time := now1;
                           detection_queue := [f2] |};
               analysed := Some f1;
               emitted := detect_from_data rfft_abs f1 |}).
  { subst first.
    rewrite (process_queue_due now1 (detect_dtmf f2 (detect_dtmf f1 d)) f1 [f2]);
      simpl; [reflexivity|exact Hdue|rewrite Hempty; reflexivity]. }
  split; [rewrite Hfirst; simpl; auto|].
  split.
  { intros Hlate. subst second. rewrite Hfirst. simpl.
    rewrite (process_queue_due now2 _ f2 []); simpl; auto. }
  split.
  { intros Hearly. subst second. rewrite Hfirst. simpl.
    rewrite process_queue_early; simpl; auto. }
  split; [|split].
  - intros now s. unfold process_queue.
    destruct (Qle_bool (delay s) (now - last_detection_time s)) eqn:E.
    + apply Qle_bool_iff in E.
      destruct (detection_queue s) as [|f rest]; simpl.
      * split; [intros [f Hf]; discriminate | intros [_ H]; congruence].
      * split; [intros _; split; [exact E|discriminate] | intros _; eauto].
    + simpl. split; [intros [f Hf]; discriminate|].
      intros [Hle _]. apply Qle_bool_iff in Hle. congruence.
  - intros now s f. unfold process_queue.
    destruct (Qle_bool (delay s) (now - last_detection_time s)); simpl;
      [|discriminate].
    destruct (detection_queue s) as [|g rest]; simpl; [discriminate|].
    intros H. injection H as ->. exists rest. auto.
  - intros now s. unfold process_queue.
    destruct (Qle_bool (delay s) (now - last_detection_time s)); simpl; auto.
    destruct (detection_queue s); simpl; [auto|discriminate].
Qed.

(** C5: over every sequence of enqueues and ticks, the blocks analysed so
    far followed by the blocks still queued are exactly the blocks that were
    queued at the start followed by the arrivals, position by position.  So
    blocks are analysed in arrival order, each arrival is analysed at most
    once, and none is dropped; one enqueue appends its block at the end. *)
Theorem queue_is_fifo (ops : list Schedule.op) (d : t) :
  snd (Schedule.run rfft_abs ops d)
    ++ detection_queue (fst (Schedule.run rfft_abs ops d))
  = detection_queue d ++ Schedule.arrivals ops
  /\ (forall f s, detection_queue (detect_dtmf f s) = detection_queue s ++ [f]).
Proof.
  split; [|reflexivity].
  revert d. induction ops as [|[f|now] ops IH]; intros d; simpl.
  - now rewrite app_nil_r.
  - rewrite IH. simpl. now rewrite <- app_assoc.
  - pose proof (process_queue_conserves now d) as Hc.
    pose proof (IH (after (process_queue rfft_abs now d))) as Hr.
    destruct (Schedule.run rfft_abs ops (after (process_queue rfft_abs now d)))
      as [d' done].
    simpl in Hr.
    destruct (analysed (process_queue rfft_abs now d)) as [f|]; simpl.
    + rewrite Hr, <- Hc. reflexivity.
    + rewrite Hr, Hc. reflexivity.
Qed.

End QueueProperties.

(** ** The matching loop *)

Section MatchingLoop.

Import DTMFDetector.

Lemma Qltb_lt (x y : Q) : Qltb x y = true <-> x < y.
Proof.
  unfold Qltb. rewrite negb_true_iff.
  destruct (Qle_bool y x) eqn:E.
  - apply Qle_bool_iff in E. split; [discriminate | lra].
  - split; [intros _|reflexivity].
    apply Qnot_le_lt. intros H. apply Qle_bool_iff in H. congruence.
Qed.

Lemma Qltb_ge (x y : Q) : Qltb x y = false <-> y <= x.
Proof.
  unfold Qltb. rewrite negb_false_iff. apply Qle_bool_iff.
Qed.

Lemma below_trans (a b : Q) (m : option Q) :
  a <= b -> below b m = true -> below a m = true.
Proof.
  destruct m as [m|]; simpl; [|trivial].
  rewrite !Qltb_lt. lra.
Qed.

(** The inner loop over the pairs, for one table entry: either no pair beats
    the running minimum and the state is unchanged, or the state names this
    entry with its closest pair, which beats the running minimum. *)
Lemma try_key_scan (pairs : list (Q * Q)) (key : string) (lo hi : Q) :
  forall st : match_state,
    let st' := fold_left (try_pair key lo hi) pairs st in
    (st' = st
     /\ forall p, In p pairs -> below (distance p lo hi) (snd st) = false)
    \/ (exists p,
          In p pairs
          /\ st' = (Some key, Some (distance p lo hi))
          /\ below (distance p lo hi) (snd st) = true
          /\ forall p', In p' pairs -> distance p lo hi <= distance p' lo hi).
Proof.
  induction pairs as [|p pairs IH]; intros st; simpl.
  - left. split; [reflexivity|intros p []].
  - change (try_pair key lo hi st p)
      with (if below (distance p lo hi) (snd st)
            then (Some key, Some (distance p lo hi)) else st).
    destruct (below (distance p lo hi) (snd st)) eqn:Hp.
    + destruct (IH (Some key, Some (distance p lo hi)))
        as [[Heq Hall] | (p2 & Hin & Heq & Hlt & Hmin)]; right.
      * exists p. repeat split; auto.
        intros p' [<-|Hin]; [lra|].
        specialize (Hall p' Hin). simpl in Hall. apply Qltb_ge in Hall. exact Hall.
      * simpl in Hlt. apply Qltb_lt in Hlt.
        exists p2. repeat split; auto.
        -- apply below_trans with (b := distance p lo hi); [lra|exact Hp].
        -- intros p' [<-|Hin']; [lra|auto].
    + destruct (IH st) as [[Heq Hall] | (p2 & Hin & Heq & Hlt & Hmin)].
      * left. split; [exact Heq|].
        intros p' [<-|Hin]; auto.
      * right. exists p2. repeat split; auto.
        intros p' [<-|Hin']; [|auto].
        destruct (snd st) as [m|]; simpl in *; [|discriminate].
        apply Qltb_lt in Hlt. apply Qltb_ge in Hp. lra.
Qed.

Lemma fold_try_key_first_minimum (pairs : list (Q * Q)) :
  pairs <> [] ->
  forall table,
    table <> [] ->
    first_minimum pairs table (fold_left (try_key pairs) table (None, None)).
Proof.
  intros Hpairs table. induction table as [|[k [l h]] table IH] using rev_ind;
    intros Hne; [congruence|].
  rewrite fold_left_app. simpl.
  pose proof (try_key_scan pairs k l h (fold_left (try_key pairs) table (None, None)))
    as Hscan.
  simpl in Hscan.
  destruct table as [|e table'].
  - simpl in *.
    destruct Hscan as [[_ Hall] | (p & Hin & Heq & _ & Hmin)].
    + destruct pairs as [|p0 ps]; [congruence|].
      specialize (Hall p0 (or_introl eq_refl)). discriminate.
    + exists [], k, l, h, [], p. rewrite Heq.
      repeat split; auto.
      * intros ? ? ? ? [].
      * intros k' l' h' p' [Hk|[]] Hp'. injection Hk as <- <- <-. auto.
  - remember (e :: table') as tbl eqn:Htbl.
    destruct (IH ltac:(subst tbl; discriminate))
      as (before & key & lo & hi & later & pair & Htab & Hpair & Hst & Hlt & Hle).
    rewrite Hst in Hscan |- *. simpl in Hscan.
    destruct Hscan as [[Heq Hall] | (p & Hin & Heq & Hbelow & Hmin)];
      unfold first_minimum; rewrite Heq.
    + exists before, key, lo, hi, (later ++ [(k, (l, h))]), pair.
      split; [rewrite Htab, <- app_assoc; reflexivity|].
      repeat split; auto.
      intros k' l' h' p' Hk Hp'.
      apply in_app_or in Hk. destruct Hk as [Hk|[Hk|[]]].
      * apply (Hle k' l' h' p'); assumption.
      * injection Hk as <- <- <-.
        specialize (Hall p' Hp'). apply Qltb_ge in Hall. exact Hall.
    + apply Qltb_lt in Hbelow.
      exists tbl, k, l, h, [], p.
      repeat split; auto.
      * intros k' l' h' p' Hk Hp'.
        specialize (Hle k' l' h' p' Hk Hp'). lra.
      * intros k' l' h' p' Hk Hp'.
        apply in_app_or in Hk. destruct Hk as [Hk|[Hk|[]]].
        -- specialize (Hle k' l' h' p' Hk Hp'). lra.
        -- injection Hk as <- <- <-. auto.
Qed.

Lemma dtmf_keys_truthy :
  Forall (fun item => truthy (fst item) = true) dtmf_freqs.
Proof.
  repeat constructor.
Qed.

End MatchingLoop.

(** ** Sorting and pairing the candidate frequencies *)

Section Candidates.

Import DTMFDetector.

Lemma insert_sorted_perm (x : Q) (l : list Q) :
  Permutation (x :: l) (insert_sorted x l).
Proof.
  induction l as [|y l IH]; simpl; [reflexivity|].
  destruct (Qltb x y); [reflexivity|].
  rewrite perm_swap. now apply perm_skip.
Qed.

Lemma insert_sorted_hd (x a : Q) (l : list Q) :
  a <= x -> HdRel Qle a l -> HdRel Qle a (insert_sorted x l).
Proof.
  intros Hax Hl. destruct l as [|y l]; simpl.
  - constructor. exact Hax.
  - destruct (Qltb x y); constructor; [exact Hax|].
    now inversion Hl.
Qed.

Lemma insert_sorted_ascending (x : Q) (l : list Q) :
  Sorted Qle l -> Sorted Qle (insert_sorted x l).
Proof.
  induction 1 as [|y l Hs IH Hhd]; simpl.
  - repeat constructor.
  - destruct (Qltb x y) eqn:E.
    + apply Qltb_lt in E. repeat constructor; auto. lra.
    + apply Qltb_ge in E. constructor; [exact IH|].
      now apply insert_sorted_hd.
Qed.

Lemma fold_insert_sorted (l acc : list Q) :
  Sorted Qle acc ->
  let out := fold_left (fun acc x => insert_sorted x acc) l acc in
  Sorted Qle out /\ Permutation (l ++ acc) out.
Proof.
  revert acc. induction l as [|x l IH]; intros acc Hacc; simpl.
  - split; [exact Hacc|reflexivity].
  - destruct (IH (insert_sorted x acc) (insert_sorted_ascending x acc Hacc))
      as [Hs Hp].
    split; [exact Hs|].
    rewrite <- Hp, <- insert_sorted_perm.
    now rewrite Permutation_middle.
Qed.

Lemma sorted_ascending (l : list Q) : Sorted Qle (sorted l).
Proof.
  apply (fold_insert_sorted l []). constructor.
Qed.

Lemma sorted_perm (l : list Q) : Permutation l (sorted l).
Proof.
  pose proof (fold_insert_sorted l [] (Sorted_nil _)) as [_ H].
  now rewrite app_nil_r in H.
Qed.

Lemma sorted_length (l : list Q) : length (sorted l) = length l.
Proof.
  symmetry. apply Permutation_length, sorted_perm.
Qed.

(** The pairs are the neighbours [(f[i], f[i+1])], and only those. *)
Lemma possible_pairs_adjacent (fs : list Q) (a b : Q) :
  In (a, b) (possible_pairs fs)
  <-> exists i, nth_error fs i = Some a /\ nth_error fs (S i) = Some b.
Proof.
  induction fs as [|x fs IH]; simpl.
  - split; [intros []|intros (i & H & _); destruct i; discriminate].
  - destruct fs as [|y fs].
    + split; [intros []|].
      intros (i & _ & H). destruct i; discriminate.
    + split.
      * intros [H|H].
        -- injection H as <- <-. exists 0%nat. auto.
        -- apply IH in H. destruct H as (i & H1 & H2). exists (S i). auto.
      * intros ([|i] & H1 & H2).
        -- left. simpl in H1, H2. congruence.
        -- right. apply IH. exists i. auto.
Qed.

Lemma possible_pairs_length (fs : list Q) :
  length (possible_pairs fs) = (length fs - 1)%nat.
Proof.
  induction fs as [|x [|y fs] IH]; simpl in *; try reflexivity.
  rewrite IH. lia.
Qed.

Lemma possible_pairs_nonempty (fs : list Q) :
  (2 <= length fs)%nat -> possible_pairs fs <> [].
Proof.
  intros H Hnil. pose proof (possible_pairs_length fs) as Hl.
  rewrite Hnil in Hl. simpl in Hl. lia.
Qed.

End Candidates.

(** ** What [find_peaks] returns *)

Section Peaks.

Import Scipy.

Lemma skipn_cons_nth (x : list Q) (i : nat) (a : Q) (rest : list Q) :
  skipn i x = a :: rest ->
  nth i x 0 = a /\ skipn (S i) x = rest /\ (i < length x)%nat.
Proof.
  revert x. induction i as [|i IH]; intros [|y x] H; simpl in *; try discriminate.
  - injection H as -> ->. repeat split. lia.
  - destruct (IH x H) as (H1 & H2 & H3). repeat split; auto. lia.
Qed.

Lemma local_maxima_scan_sound (x : list Q) :
  forall xs i start,
    skipn i x = xs ->
    scan_state x i start ->
    Forall (plateau_midpoint x) (local_maxima_scan i (nth (i - 1) x 0) start xs).
Proof.
  induction xs as [|a rest IH]; intros i start Hskip [Hi Hstart]; simpl;
    [constructor|].
  destruct (skipn_cons_nth x i a rest Hskip) as (Ha & Hrest & Hlen).
  assert (Hprev : nth (S i - 1) x 0 = a)
    by (replace (S i - 1)%nat with i by lia; exact Ha).
  destruct (Qcompare_spec a (nth (i - 1) x 0)) as [Heq|Hlt|Hgt].
  - rewrite <- Hprev. apply IH; [exact Hrest|].
    split; [lia|]. intros l Hl. destruct (Hstart l Hl) as (H1 & H2 & H3).
    repeat split; try lia; auto.
    intros j Hj. destruct (Nat.eq_dec j i) as [->|Hne].
    + rewrite Ha, Heq. apply H3. lia.
    + apply H3. lia.
  - assert (Hnext : Forall (plateau_midpoint x)
                      (local_maxima_scan (S i) a None rest)).
    { rewrite <- Hprev. apply IH; [exact Hrest|].
      split; [lia|]. intros l Hl. discriminate. }
    destruct start as [l|]; [|exact Hnext].
    constructor; [|exact Hnext].
    destruct (Hstart l eq_refl) as (H1 & H2 & H3).
    exists l, (i - 1)%nat. repeat split; try lia; auto.
    + intros j Hj. apply H3. lia.
    + replace (i - 1 + 1)%nat with i by lia.
      rewrite Ha. rewrite <- (H3 (i - 1)%nat) by lia. exact Hlt.
  - rewrite <- Hprev. apply IH; [exact Hrest|].
    split; [lia|]. intros l Hl. injection Hl as <-.
    repeat split; try lia.
    + rewrite Ha. exact Hgt.
    + intros j Hj. replace j with i by lia. reflexivity.
Qed.

(** Every index [_local_maxima_1d] reports is a strict local maximum, up to
    the flat stretch it is the middle of. *)
Lemma local_maxima_1d_sound (x : list Q) :
  Forall (plateau_midpoint x) (local_maxima_1d x).
Proof.
  destruct x as [|x0 rest]; [constructor|].
  apply (local_maxima_scan_sound (x0 :: rest) rest 1 None); [reflexivity|].
  split; [lia|discriminate].
Qed.

Lemma skipn_nil_length (x : list Q) (i : nat) :
  skipn i x = [] -> (length x <= i)%nat.
Proof.
  revert x. induction i as [|i IH]; intros [|y x] H; simpl in *;
    try discriminate; try lia.
  specialize (IH x H). lia.
Qed.

(** A flat stretch [l..r] that qualifies is either still ahead of the scan or
    the plateau the scan has open; in both cases its midpoint is reported. *)
Lemma local_maxima_scan_complete (x : list Q) (l r : nat) :
  (0 < l <= r)%nat -> (r + 1 < length x)%nat ->
  (forall j, (l <= j <= r)%nat -> nth j x 0 == nth l x 0) ->
  nth (l - 1) x 0 < nth l x 0 ->
  nth (r + 1) x 0 < nth l x 0 ->
  forall xs i start,
    skipn i x = xs ->
    (0 < i)%nat ->
    (i <= l)%nat \/ (start = Some l /\ (l < i <= r + 1)%nat) ->
    In ((l + r) / 2)%nat (local_maxima_scan i (nth (i - 1) x 0) start xs).
Proof.
  intros Hlr Hlen Hflat Hrise Hfall.
  induction xs as [|a rest IH]; intros i start Hskip Hi Hpos.
  - apply skipn_nil_length in Hskip. lia.
  - destruct (skipn_cons_nth x i a rest Hskip) as (Ha & Hrest & _).
    assert (Hprev : nth (S i - 1) x 0 = a)
      by (replace (S i - 1)%nat with i by lia; exact Ha).
    cbn [local_maxima_scan].
    destruct Hpos as [Hahead | [Hopen Hin]].
    + destruct (Nat.eq_dec i l) as [->|Hne].
      * assert (Hgt : (a ?= nth (l - 1) x 0) = Gt)
          by (apply Qgt_alt; rewrite <- Ha; exact Hrise).
        rewrite Hgt, <- Hprev.
        apply IH; [exact Hrest|lia|]. right. split; [reflexivity|lia].
      * assert (Hnext : forall st,
                   In ((l + r) / 2)%nat (local_maxima_scan (S i) a st rest)).
        { intros st. rewrite <- Hprev. apply IH; [exact Hrest|lia|]. left. lia. }
        destruct (a ?= nth (i - 1) x 0); auto.
        destruct start; [right|]; auto.
    + subst start.
      destruct (Nat.eq_dec i (r + 1)) as [->|Hne].
      * assert (Hltc : (a ?= nth (r + 1 - 1) x 0) = Lt).
        { apply Qlt_alt. rewrite <- Ha.
          replace (r + 1 - 1)%nat with r by lia.
          rewrite (Hflat r) by lia. exact Hfall. }
        rewrite Hltc. left.
        replace (r + 1 - 1)%nat with r by lia. reflexivity.
      * assert (Heqc : (a ?= nth (i - 1) x 0) = Eq).
        { apply Qeq_alt. rewrite <- Ha.
          rewrite (Hflat i), (Hflat (i - 1)%nat) by lia. reflexivity. }
        rewrite Heqc, <- Hprev.
        apply IH; [exact Hrest|lia|]. right. split; [reflexivity|lia].
Qed.

(** [_local_maxima_1d] reports exactly the midpoints of the strict local
    maxima. *)
Lemma local_maxima_1d_spec (x : list Q) (k : nat) :
  In k (local_maxima_1d x) <-> plateau_midpoint x k.
Proof.
  split.
  - intros H. pose proof (local_maxima_1d_sound x) as Hs.
    rewrite Forall_forall in Hs. auto.
  - intros (l & r & Hlr & Hlen & -> & Hflat & Hrise & Hfall).
    destruct x as [|x0 rest]; [simpl in Hlen; lia|].
    apply (local_maxima_scan_complete (x0 :: rest) l r Hlr Hlen Hflat Hrise Hfall
             rest 1 None); [reflexivity|lia|left; lia].
Qed.

Lemma local_maxima_scan_gap (xs : list Q) :
  forall i prev start,
    (0 < i)%nat ->
    (forall l, start = Some l -> (l < i)%nat) ->
    gap 2 (local_maxima_scan i prev start xs)
    /\ Forall (fun k => match start with
                        | Some l => (l <= k)%nat
                        | None => (i <= k)%nat
                        end) (local_maxima_scan i prev start xs).
Proof.
  induction xs as [|a rest IH]; intros i prev start Hi Hstart;
    cbn [local_maxima_scan]; [split; constructor|].
  destruct (a ?= prev).
  - destruct (IH (S i) a start ltac:(lia)) as [Hg Hlow].
    { intros l Hl. specialize (Hstart l Hl). lia. }
    split; [exact Hg|].
    destruct start; [exact Hlow|].
    eapply Forall_impl; [|exact Hlow]. cbv beta. intros; lia.
  - destruct (IH (S i) a None ltac:(lia) ltac:(discriminate)) as [Hg Hlow].
    destruct start as [l|].
    + specialize (Hstart l eq_refl).
      assert (Hk : (l <= (l + (i - 1)) / 2 <= i - 1)%nat).
      { split.
        - apply Nat.div_le_lower_bound; lia.
        - apply Nat.Div0.div_le_upper_bound; lia. }
      split.
      * constructor; [exact Hg|].
        eapply Forall_impl; [|exact Hlow]. cbv beta. intros; lia.
      * constructor; [lia|].
        eapply Forall_impl; [|exact Hlow]. cbv beta. intros; lia.
    + split; [exact Hg|].
      eapply Forall_impl; [|exact Hlow]. cbv beta. intros; lia.
  - destruct (IH (S i) a (Some i) ltac:(lia)) as [Hg Hlow].
    { intros l Hl. injection Hl as <-. lia. }
    split; [exact Hg|].
    destruct start as [l|].
    + specialize (Hstart l eq_refl).
      eapply Forall_impl; [|exact Hlow]. cbv beta. intros; lia.
    + exact Hlow.
Qed.

Lemma local_maxima_1d_gap (x : list Q) : gap 2 (local_maxima_1d x).
Proof.
  destruct x as [|x0 rest]; [constructor|].
  apply (local_maxima_scan_gap rest 1 x0 None); [lia|discriminate].
Qed.

Lemma gap_filter (d : nat) (f : nat -> bool) (l : list nat) :
  gap d l -> gap d (filter f l).
Proof.
  induction 1 as [|a l Hs IH Hall]; simpl; [constructor|].
  destruct (f a); [|exact IH].
  constructor; [exact IH|].
  apply Forall_forall. intros b Hb. apply filter_In in Hb.
  rewrite Forall_forall in Hall. apply Hall, Hb.
Qed.

Lemma gap_far (d : nat) (l : list nat) :
  gap d l ->
  forall a b, In a l -> In b l -> a <> b -> (d <= nat_dist a b)%nat.
Proof.
  unfold nat_dist.
  induction 1 as [|c l Hs IH Hall]; intros a b Ha Hb Hne; [destruct Ha|].
  rewrite Forall_forall in Hall.
  destruct Ha as [<-|Ha], Hb as [<-|Hb].
  - congruence.
  - specialize (Hall b Hb). lia.
  - specialize (Hall a Ha). lia.
  - now apply IH.
Qed.

(** Peaks that already keep the distance pass [_select_by_peak_distance]
    unchanged, whatever the order of the visits. *)
Lemma select_by_peak_distance_far (peaks : list nat) (priority : nat -> Q)
      (distance : nat) :
  gap distance peaks ->
  select_by_peak_distance peaks priority distance = peaks.
Proof.
  intros Hgap. unfold select_by_peak_distance.
  generalize (by_priority priority peaks) as order.
  induction order as [|p order IH]; simpl; [reflexivity|].
  replace (visit_peak distance peaks p) with peaks; [exact IH|].
  unfold visit_peak.
  destruct (existsb (Nat.eqb p) peaks) eqn:E; [|reflexivity].
  apply existsb_exists in E. destruct E as (p' & Hin & Hp').
  apply Nat.eqb_eq in Hp'. subst p'.
  symmetry. apply forallb_filter_id. apply forallb_forall. intros q Hq.
  destruct (Nat.eq_dec q p) as [->|Hne].
  - now rewrite Nat.eqb_refl.
  - apply orb_true_iff. right. apply Nat.leb_le.
    now apply (gap_far distance peaks Hgap).
Qed.

(** With [distance=2] the distance condition removes nothing: local maxima
    are never neighbours. *)
Lemma find_peaks_distance_2 (x : list Q) (height : Q) :
  find_peaks x height 2 = select_by_height x height (local_maxima_1d x).
Proof.
  unfold find_peaks. apply select_by_peak_distance_far.
  apply gap_filter, local_maxima_1d_gap.
Qed.

End Peaks.

(** ** Detection *)

Section Detection.

Variable rfft_abs : frame -> list Q.

Import DTMFDetector.

Lemma peaks_spec (magnitudes : list Q) (k : nat) :
  In k (peaks magnitudes)
  <-> plateau_midpoint magnitudes k
      /\ peak_height magnitudes <= nth k magnitudes 0.
Proof.
  unfold peaks. rewrite find_peaks_distance_2.
  unfold Scipy.select_by_height. rewrite filter_In, local_maxima_1d_spec.
  now rewrite Qle_bool_iff.
Qed.

Lemma peaks_apart (magnitudes : list Q) (k k' : nat) :
  In k (peaks magnitudes) -> In k' (peaks magnitudes) -> k <> k' ->
  (2 <= Scipy.nat_dist k k')%nat.
Proof.
  unfold peaks. rewrite find_peaks_distance_2.
  apply gap_far, gap_filter, local_maxima_1d_gap.
Qed.

(** What remains in [detected_freqs]: the frequencies of the peaks above 13
    that lie in the valid range. *)
Lemma detected_freqs_spec (n : nat) (magnitudes : list Q) (f : Q) :
  In f (detected_freqs n magnitudes)
  <-> exists k,
        In k (peaks magnitudes)
        /\ 13 < nth k magnitudes 0
        /\ f = nth k (freq n) 0
        /\ 600 <= f /\ f <= 1700.
Proof.
  unfold detected_freqs. rewrite filter_In, in_map_iff.
  split.
  - intros [(k & <- & Hk) Hrange].
    apply filter_In in Hk. destruct Hk as [Hk Hloud].
    apply Qltb_lt in Hloud.
    apply andb_true_iff in Hrange. destruct Hrange as [Hlo Hhi].
    apply Qle_bool_iff in Hlo, Hhi.
    exists k. auto.
  - intros (k & Hk & Hloud & -> & Hlo & Hhi). split.
    + exists k. split; [reflexivity|].
      apply filter_In. split; [exact Hk|]. now apply Qltb_lt.
    + apply andb_true_iff. split; now apply Qle_bool_iff.
Qed.

(** Past the two early returns the method emits the key the loop settled on. *)
Lemma detect_from_data_loop (audio_data : frame) :
  audio_data <> [] ->
  (2 <= length (detected_freqs (length audio_data) (rfft_abs audio_data)))%nat ->
  exists key d,
    detect_from_data rfft_abs audio_data = Some key
    /\ best_match (possible_pairs
                     (sorted (detected_freqs (length audio_data)
                                (rfft_abs audio_data))))
       = (Some key, Some d).
Proof.
  intros Hne Htwo. unfold detect_from_data.
  destruct audio_data as [|a rest]; [congruence|].
  change (length (a :: rest) =? 0)%nat with false. cbv iota.
  set (freqs := detected_freqs (length (a :: rest)) (rfft_abs (a :: rest))) in *.
  assert (Hlt : (length freqs <? 2)%nat = false) by (apply Nat.ltb_ge; exact Htwo).
  rewrite Hlt.
  assert (Hpairs : possible_pairs (sorted freqs) <> []).
  { apply possible_pairs_nonempty. rewrite sorted_length. exact Htwo. }
  destruct (fold_try_key_first_minimum _ Hpairs dtmf_freqs ltac:(discriminate))
    as (before & key & lo & hi & later & pair & Htab & _ & Hst & _).
  fold (best_match (possible_pairs (sorted freqs))) in Hst.
  rewrite Hst. simpl fst.
  assert (Htruthy : truthy key = true).
  { pose proof dtmf_keys_truthy as Hall. rewrite Forall_forall in Hall.
    apply (Hall (key, (lo, hi))). rewrite Htab. apply in_elt. }
  cbv iota beta. rewrite Htruthy. eauto.
Qed.

(** The height threshold is 0.68 times the largest magnitude up to the two
    roundings of the product (the literal and the product itself). *)
Lemma peak_height_near (magnitudes : list Q) :
  Float64.pow2 (-1021) <= Numpy.np_max magnitudes ->
  Qabs (peak_height magnitudes - (68 # 100) * Numpy.np_max magnitudes)
  <= Float64.pow2 (-52) * Numpy.np_max magnitudes.
Proof.
  intros Hm. unfold peak_height.
  set (m := Numpy.np_max magnitudes) in *.
  set (c := Float64.round (68 # 100)).
  assert (Hc : (67 # 100) <= c /\ Qabs (c - (68 # 100)) <= Float64.pow2 (-54)).
  { split; vm_compute; discriminate. }
  destruct Hc as [Hc1 Hc2].
  assert (Hp : Float64.pow2 (-1021) == 2 * Float64.pow2 (-1022)) by reflexivity.
  pose proof (pow2_pos (-1022)) as Hpos.
  assert (Hm0 : 0 <= m) by lra.
  assert (Hmc : 0 <= m * (c - (67 # 100)))
    by (apply Qmult_le_0_compat; lra).
  assert (Hx : Float64.pow2 (-1022) <= m * c) by lra.
  pose proof (round_error (m * c) Hx) as Hr.
  assert (Hu : Float64.pow2 (-53) == (1 # 2) * Float64.pow2 (-52)) by reflexivity.
  assert (Hv : Float64.pow2 (-54) == (1 # 4) * Float64.pow2 (-52)) by reflexivity.
  pose proof (pow2_pos (-52)) as Hpos'.
  assert (Hc3 : c <= 69 # 100) by (vm_compute; discriminate).
  assert (Hd : Qabs (m * c - (68 # 100) * m) <= Float64.pow2 (-54) * m).
  { setoid_replace (m * c - (68 # 100) * m) with ((c - (68 # 100)) * m) by ring.
    rewrite Qabs_Qmult, (Qabs_pos m) by lra.
    apply Qmult_le_compat_r; lra. }
  setoid_replace (Float64.round (m * c) - (68 # 100) * m)
    with ((Float64.round (m * c) - m * c) + (m * c - (68 # 100) * m)) by ring.
  eapply Qle_trans; [apply Qabs_triangle|].
  assert (Hmc' : 0 <= Float64.pow2 (-52) * m * ((69 # 100) - c)).
  { apply Qmult_le_0_compat; [apply Qmult_le_0_compat|]; lra. }
  rewrite Hu in Hr. rewrite Hv in Hd.
  set (P := Float64.pow2 (-52)) in *.
  assert (He : (1 # 2) * P * (m * c) <= (1 # 2) * (69 # 100) * (P * m)) by lra.
  assert (Hpm : 0 <= P * m) by (apply Qmult_le_0_compat; lra).
  lra.
Qed.

(** C2: for every non-empty block, [detect_from_data] emits a symbol if and
    only if at least two frequencies are left in [detected_freqs]; a
    frequency is left exactly when it is the frequency of a bin that is a
    local maximum of the spectrum, at least [peak_height] (the double product
    of the largest magnitude and 0.68), strictly above 13, and within
    600..1700 Hz on the axis [freq] the code computes; two such bins are
    always at least 2 apart.  No distance bound is applied before the symbol
    is emitted.  The threshold [peak_height] differs from 0.68 times the
    largest magnitude by at most [2^-52] of that magnitude. *)
Theorem detect_emits_iff_two_qualifying (audio_data : frame) :
  audio_data <> [] ->
  let n := length audio_data in
  let magnitudes := rfft_abs audio_data in
  ((exists s, detect_from_data rfft_abs audio_data = Some s)
   <-> (2 <= length (detected_freqs n magnitudes))%nat)
  /\ (forall f,
        In f (detected_freqs n magnitudes)
        <-> exists k,
              plateau_midpoint magnitudes k
              /\ peak_height magnitudes <= nth k magnitudes 0
              /\ 13 < nth k magnitudes 0
              /\ f = nth k (freq n) 0
              /\ 600 <= f /\ f <= 1700)
  /\ (forall k k',
        In k (peaks magnitudes) -> In k' (peaks magnitudes) -> k <> k' ->
        (2 <= Scipy.nat_dist k k')%nat)
  /\ (Float64.pow2 (-1021) <= Numpy.np_max magnitudes ->
      Qabs (peak_height magnitudes - (68 # 100) * Numpy.np_max magnitudes)
      <= Float64.pow2 (-52) * Numpy.np_max magnitudes).
Proof.
  intros Hne n magnitudes. split; [|split; [|split]].
  - split.
    + intros [s Hs]. unfold detect_from_data in Hs.
      destruct (length audio_data =? 0)%nat; [discriminate|].
      fold n magnitudes in Hs.
      destruct (length (detected_freqs n magnitudes) <? 2)%nat eqn:E;
        [discriminate|].
      now apply Nat.ltb_ge in E.
    + intros Htwo.
      destruct (detect_from_data_loop audio_data Hne Htwo) as (key & _ & Hk & _).
      eauto.
  - intros f. rewrite detected_freqs_spec.
    split; intros (k & H); exists k.
    + rewrite peaks_spec in H. tauto.
    + rewrite peaks_spec. tauto.
  - apply peaks_apart.
  - apply peak_height_near.
Qed.

(** C3: a symbol that [detect_from_data] emits is a table key whose distance
    [|pair.low - low| + |pair.high - high|] to some neighbouring pair of the
    ascending candidate frequencies is the least over all table entries and
    all such pairs, and every entry before it in the table is strictly
    farther from every pair: among equally close symbols the first in table
    order is emitted.  The pairs are the neighbours in the sorted list, which
    is ascending and a rearrangement of [detected_freqs]. *)
Theorem detect_emits_first_closest (audio_data : frame) (s : string) :
  detect_from_data rfft_abs audio_data = Some s ->
  let freqs := detected_freqs (length audio_data) (rfft_abs audio_data) in
  let pairs := possible_pairs (sorted freqs) in
  (exists before low high later pair,
     dtmf_freqs = before ++ (s, (low, high)) :: later
     /\ In pair pairs
     /\ (forall key lo hi p,
           In (key, (lo, hi)) dtmf_freqs -> In p pairs ->
           distance pair low high <= distance p lo hi)
     /\ (forall key lo hi p,
           In (key, (lo, hi)) before -> In p pairs ->
           distance pair low high < distance p lo hi))
  /\ Sorted Qle (sorted freqs)
  /\ Permutation freqs (sorted freqs)
  /\ (forall a b,
        In (a, b) pairs
        <-> exists i, nth_error (sorted freqs) i = Some a
                      /\ nth_error (sorted freqs) (S i) = Some b).
Proof.
  intros Hs freqs pairs.
  split; [|split; [apply sorted_ascending|split;
                   [apply sorted_perm|apply possible_pairs_adjacent]]].
  unfold detect_from_data in Hs.
  destruct (length audio_data =? 0)%nat; [discriminate|].
  fold freqs in Hs.
  destruct (length freqs <? 2)%nat eqn:E; [discriminate|].
  apply Nat.ltb_ge in E. fold pairs in Hs.
  assert (Hpairs : pairs <> []).
  { apply possible_pairs_nonempty. rewrite sorted_length. exact E. }
  destruct (fold_try_key_first_minimum _ Hpairs dtmf_freqs ltac:(discriminate))
    as (before & key & lo & hi & later & pair & Htab & Hin & Hst & Hlt & Hle).
  fold (best_match pairs) in Hst. rewrite Hst in Hs. simpl in Hs.
  destruct (truthy key); [|discriminate].
  injection Hs as <-.
  exists before, lo, hi, later, pair. auto.
Qed.

End Detection.

(** ** The frequency axis *)

Section FrequencyAxis.

Variable rfft_abs : frame -> list Q.

Import DTMFDetector.

Lemma nat_to_Q_pos (n : nat) : (0 < n)%nat -> 0 < nat_to_Q n.
Proof.
  intros H. unfold nat_to_Q.
  change 0 with (inject_Z 0). rewrite <- Zlt_Qlt. lia.
Qed.

Lemma freq_length (n : nat) : length (freq n) = (n / 2 + 1)%nat.
Proof.
  unfold freq, Numpy.rfftfreq. now rewrite length_map, length_seq.
Qed.

(** Bin [k] of the axis, as line 53 computes it. *)
Lemma freq_nth (n k : nat) :
  (k <= n / 2)%nat ->
  nth k (freq n) 0
  = Float64.round
      (nat_to_Q k
       * Float64.round
           (1 / Float64.round (nat_to_Q n * Float64.round (1 / 44100)))).
Proof.
  intros Hk. unfold freq, Numpy.rfftfreq. cbv zeta.
  set (val := Float64.round (1 / _)).
  set (f := fun k0 : nat => Float64.round (nat_to_Q k0 * val)).
  rewrite (nth_indep _ 0 (f 0%nat)) by (rewrite length_map, length_seq; lia).
  rewrite map_nth, seq_nth by lia. reflexivity.
Qed.

Lemma nat_to_Q_nonneg (n : nat) : 0 <= nat_to_Q n.
Proof.
  unfold nat_to_Q. change 0 with (inject_Z 0). rewrite <- Zle_Qle. lia.
Qed.

Lemma nat_to_Q_mono (a b : nat) : (a <= b)%nat -> nat_to_Q a <= nat_to_Q b.
Proof.
  intros H. unfold nat_to_Q. rewrite <- Zle_Qle. lia.
Qed.

(** The computed axis is ascending. *)
Lemma freq_monotone (n a b : nat) :
  (a <= b)%nat -> (b <= n / 2)%nat ->
  nth a (freq n) 0 <= nth b (freq n) 0.
Proof.
  intros Hab Hb. rewrite !freq_nth by lia.
  set (val := Float64.round (1 / _)).
  assert (Hval : 0 <= val).
  { apply round_nonneg. unfold Qdiv. rewrite Qmult_1_l.
    apply Qinv_le_0_compat, round_nonneg.
    apply Qmult_le_0_compat; [apply nat_to_Q_nonneg|].
    vm_compute. discriminate. }
  apply round_monotone.
  - apply Qmult_le_0_compat; [apply nat_to_Q_nonneg|exact Hval].
  - apply Qmult_le_compat_r; [now apply nat_to_Q_mono|exact Hval].
Qed.





(** When the transform returns [n/2 + 1] bins, every peak has a frequency on
    the axis. *)
Lemma peaks_on_axis (audio_data : frame) (k : nat) :
  length (rfft_abs audio_data) = (length audio_data / 2 + 1)%nat ->
  In k (peaks (rfft_abs audio_data)) ->
  (k < length (freq (length audio_data)))%nat.
Proof.
  intros Hlen Hk. apply peaks_spec in Hk.
  destruct Hk as [(l & r & Hlr & Hr & -> & _) _].
  rewrite freq_length, <- Hlen.
  assert ((l + r) / 2 <= r)%nat by (apply Nat.Div0.div_le_upper_bound; lia).
  lia.
Qed.


End FrequencyAxis.

(** ** The audio callback *)

Section Callback.

Variable rfft_abs : frame -> list Q.

Import AudioThread.

Lemma assign_same_length (outdata src : frame) :
  length src = length outdata -> assign outdata src = Ok src.
Proof.
  intros H. unfold assign. now rewrite H, Nat.eqb_refl.
Qed.

Lemma zeros_length (n : nat) : length (Numpy.zeros n) = n.
Proof.
  apply repeat_length.
Qed.

(** C7 (as amended): for a block whose input and output buffers have the same
    length.  Not muted: the output buffer becomes the input samples, the
    block is appended to the detector's queue, emitted on
    [audio_data_signal], and given to the level meter when the thread has
    one.  Muted (the thread has a window whose [stop_transition] is set) with
    a level meter: the output buffer becomes all zeros, the level meter is
    updated with a zero block of the input's length, and the detector and
    the signal get nothing. *)
Theorem audio_callback_effect (self : t) (h : heap) (indata outdata : frame) :
  length indata = length outdata ->
  (main_window self && stop_transition h = true -> visualizer self = true) ->
  exists r,
    audio_callback rfft_abs self h indata outdata = Ok r
    /\ stop_transition (objects r) = stop_transition h
    /\ if main_window self && stop_transition h
       then outdata_after r = Numpy.zeros (length outdata)
            /\ Forall (fun y => y = 0) (outdata_after r)
            /\ thread r = self
            /\ audio_data_signal r = []
            /\ widget (objects r) =
                 AudioVisualizer.update_bars rfft_abs
                   (Numpy.zeros (length indata)) (widget h)
       else outdata_after r = indata
            /\ DTMFDetector.detection_queue (detector (thread r)) =
                 DTMFDetector.detection_queue (detector self) ++ [indata]
            /\ audio_data_signal r = [indata]
            /\ widget (objects r) =
                 if visualizer self
                 then AudioVisualizer.update_bars rfft_abs indata (widget h)
                 else widget h.
Proof.
  intros Hlen Hvis. unfold audio_callback.
  destruct (main_window self && stop_transition h) eqn:Hmuted.
  - rewrite (Hvis eq_refl).
    rewrite assign_same_length by (unfold Numpy.zeros_like; apply zeros_length).
    eexists. split; [reflexivity|]. simpl.
    repeat split; auto.
    apply Forall_forall. intros y Hy. now apply repeat_spec in Hy.
  - rewrite assign_same_length by exact Hlen.
    eexists. split; [reflexivity|]. simpl. auto.
Qed.

End Callback.

(** ** The level meter *)

Section LevelMeter.

Variable rfft_abs : frame -> list Q.

Import AudioVisualizer.

Lemma interp_bounds (x hi : Q) :
  0 <= hi ->
  0 <= Numpy.interp x (0, 100) (0, hi) <= hi.
Proof.
  intros Hhi. unfold Numpy.interp.
  destruct (Qle_bool x 0) eqn:E0; [lra|].
  destruct (Qle_bool 100 x) eqn:E1; [lra|].
  assert (H0 : 0 < x).
  { apply Qnot_le_lt. intros H. apply Qle_bool_iff in H. congruence. }
  assert (H1 : x < 100).
  { apply Qnot_le_lt. intros H. apply Qle_bool_iff in H. congruence. }
  assert (Heq : (hi - 0) / (100 - 0) * (x - 0) + 0 == hi * (x / 100)) by field.
  rewrite Heq.
  assert (Hx : 0 <= x / 100 <= 1).
  { split.
    - apply Qle_shift_div_l; lra.
    - apply Qle_shift_div_r; lra. }
  nra.
Qed.

(** The target is always within the widget. *)
Lemma target_level_bounds (self : t) (audio_data : frame) :
  0 <= target_level rfft_abs self audio_data <= nat_to_Q (height self).
Proof.
  unfold target_level.
  destruct (length audio_data =? 0)%nat.
  - split; [lra|apply nat_to_Q_nonneg].
  - apply interp_bounds, nat_to_Q_nonneg.
Qed.

Lemma target_level_empty (self : t) : target_level rfft_abs self [] = 0.
Proof.
  reflexivity.
Qed.

(** A block with a non-zero spectrum: its largest magnitude on the scale
    0..100, clamped, times the height. *)
Lemma target_level_sound (self : t) (audio_data : frame) :
  audio_data <> [] ->
  ~ Numpy.np_max (rfft_abs audio_data) == 0 ->
  target_level rfft_abs self audio_data
  = Numpy.interp (Numpy.np_max (rfft_abs audio_data)) (0, 100)
      (0, nat_to_Q (height self)).
Proof.
  intros Hne Hmax. unfold target_level.
  destruct audio_data; [congruence|]. simpl length. cbv iota beta.
  change (S (length audio_data) =? 0)%nat with false. cbv iota.
  destruct (Qeq_bool _ 0) eqn:E; [|reflexivity].
  apply Qeq_bool_iff in E. contradiction.
Qed.

(** The guard against a zero maximum: a non-empty block whose spectrum is all
    zero is scaled as if its largest magnitude were 1. *)
Lemma target_level_zero_spectrum (self : t) (audio_data : frame) :
  audio_data <> [] ->
  Numpy.np_max (rfft_abs audio_data) == 0 ->
  target_level rfft_abs self audio_data == nat_to_Q (height self) / 100.
Proof.
  intros Hne Hmax. unfold target_level.
  destruct audio_data as [|a rest]; [congruence|].
  change (length (a :: rest) =? 0)%nat with false. cbv iota beta.
  apply Qeq_bool_iff in Hmax. rewrite Hmax.
  unfold Numpy.interp.
  change (Qle_bool 1 0) with false. change (Qle_bool 100 1) with false.
  cbv iota. field.
Qed.

(** C8 (the code at a silent block): for a non-empty block whose spectrum is
    all zero, the guard replaces the maximum 0 by 1 and the target is
    [height / 100], which is above 0 on a widget of positive height. *)
Theorem target_level_silence (self : t) (audio_data : frame) :
  audio_data <> [] ->
  Numpy.np_max (rfft_abs audio_data) == 0 ->
  (0 < height self)%nat ->
  target_level rfft_abs self audio_data == nat_to_Q (height self) / 100
  /\ 0 < target_level rfft_abs self audio_data.
Proof.
  intros Hne Hmax Hh.
  pose proof (target_level_zero_spectrum self audio_data Hne Hmax) as Heq.
  split; [exact Heq|].
  rewrite Heq. apply Qlt_shift_div_l; [lra|].
  pose proof (nat_to_Q_pos (height self) Hh). lra.
Qed.

(** C9 (the code on zero blocks): while [stop_transition] is set, each timer
    tick feeds the meter a zero block as long as the widget is high; the
    smoothed level then closes in on [height / 100], which is above 0, not on
    0: its distance to [height / 100] shrinks by the factor [1 - alpha], and
    the step it takes is [alpha] times what is left to [height / 100], so a
    level below [height / 100] rises. *)
Theorem zero_blocks_settle_above_zero (w : MainWindow.t) :
  let v := MainWindow.visualizer w in
  let v' := MainWindow.visualizer (MainWindow.update_visualizer_transition rfft_abs w) in
  let limit := nat_to_Q (height v) / 100 in
  MainWindow.stop_transition w = true ->
  (0 < height v)%nat ->
  Numpy.np_max (rfft_abs (Numpy.zeros (height v))) == 0 ->
  0 < smoothing_factor v < 1 ->
  0 < limit
  /\ smoothed_level v' - limit == (1 - smoothing_factor v) * (smoothed_level v - limit)
  /\ smoothed_level v' - smoothed_level v
     == smoothing_factor v * (limit - smoothed_level v)
  /\ smoothing_factor v' = smoothing_factor v
  /\ height v' = height v.
Proof.
  intros v v' limit Hstop Hh Hmax Halpha.
  assert (Hne : Numpy.zeros (height v) <> []).
  { destruct (height v); [lia|discriminate]. }
  pose proof (target_level_zero_spectrum v _ Hne Hmax) as Ht.
  assert (Hpos : 0 < limit).
  { subst limit. apply Qlt_shift_div_l; [lra|].
    pose proof (nat_to_Q_pos (height v) Hh). lra. }
  assert (Hv' : v' = update_bars rfft_abs (Numpy.zeros (height v)) v).
  { subst v' v. unfold MainWindow.update_visualizer_transition.
    rewrite Hstop. reflexivity. }
  fold limit in Ht.
  split; [exact Hpos|].
  clearbody limit v' v. subst v'. simpl. rewrite Ht.
  repeat split; try reflexivity; lra.
Qed.

(** The same over [n] timer ticks: the level after them is
    [height/100 + (1 - alpha)^n * (level - height/100)]. *)
Lemma zero_blocks_after_n_ticks (w : MainWindow.t) (n : nat) :
  let v := MainWindow.visualizer w in
  let limit := nat_to_Q (height v) / 100 in
  MainWindow.stop_transition w = true ->
  (0 < height v)%nat ->
  Numpy.np_max (rfft_abs (Numpy.zeros (height v))) == 0 ->
  smoothed_level
    (MainWindow.visualizer
       (Nat.iter n (MainWindow.update_visualizer_transition rfft_abs) w))
  - limit
  == Qpow (1 - smoothing_factor v) n * (smoothed_level v - limit).
Proof.
  intros v limit Hstop Hh Hmax.
  assert (Hinv :
    let w' := Nat.iter n (MainWindow.update_visualizer_transition rfft_abs) w in
    MainWindow.stop_transition w' = true
    /\ height (MainWindow.visualizer w') = height v
    /\ smoothing_factor (MainWindow.visualizer w') = smoothing_factor v
    /\ smoothed_level (MainWindow.visualizer w') - limit
       == Qpow (1 - smoothing_factor v) n * (smoothed_level v - limit)).
  { induction n as [|n IH]; cbv zeta;
      [cbn [Nat.iter nat_rect Qpow]|rewrite Nat.iter_succ; cbn [Qpow]].
    - fold v. repeat split; auto. ring.
    - cbv zeta in IH. destruct IH as (Hs & Hhe & Ha & Hl).
      set (w' := Nat.iter n (MainWindow.update_visualizer_transition rfft_abs) w) in *.
      unfold MainWindow.update_visualizer_transition at 1 2 3 4.
      rewrite Hs. cbn [MainWindow.stop_transition MainWindow.visualizer].
      unfold update_bars. cbn [height smoothing_factor smoothed_level].
      repeat split; auto.
      rewrite target_level_zero_spectrum.
      + rewrite Hhe, Ha. fold limit.
        setoid_replace (smoothed_level (MainWindow.visualizer w'))
          with (limit + Qpow (1 - smoothing_factor v) n * (smoothed_level v - limit))
          by (rewrite <- Hl; ring).
        ring.
      + rewrite Hhe. destruct (height v); [lia|discriminate].
      + rewrite Hhe. exact Hmax. }
  apply Hinv.
Qed.

(** On the empty block the target is 0 and the level decays toward 0 without
    crossing it. *)
Lemma empty_block_decays (v : t) :
  smoothed_level (update_bars rfft_abs [] v)
  == (1 - smoothing_factor v) * smoothed_level v.
Proof.
  unfold update_bars. rewrite target_level_empty.
  cbn [smoothed_level]. ring.
Qed.

End LevelMeter.

(** ** Configuration *)

Section Configuration.

Import MainWindow.

Lemma setters_raise_while_running (w : t) (th : AudioThread.t) (value : Q) :
  audio_thread w = Some th ->
  set_sample_rate value w = Raise AttributeError
  /\ set_timing value w = Raise AttributeError
  /\ set_buffer_size value w = Raise AttributeError.
Proof.
  intros H. unfold set_sample_rate, set_timing, set_buffer_size.
  now rewrite H.
Qed.

(** C10 (as amended): a call of [set_sample_rate], [set_timing] or
    [set_buffer_size] that returns happened without a thread and left the
    window as it was: the value is not recorded.  The stream started next
    runs with 44100 Hz, 2048 samples per block and a delay of 0.2 s, whatever
    the value was. *)
Theorem setters_leave_next_stream_default (w w' : t) (value now : Q) :
  set_sample_rate value w = Ok w'
  \/ set_timing value w = Ok w'
  \/ set_buffer_size value w = Ok w' ->
  w' = w
  /\ audio_thread w = None
  /\ exists th,
       audio_thread (start_detection now w') = Some th
       /\ AudioThread.sample_rate th = 44100
       /\ AudioThread.buffer_size th = 2048
       /\ DTMFDetector.delay (AudioThread.detector th) = 2 # 10.
Proof.
  unfold set_sample_rate, set_timing, set_buffer_size.
  intros H.
  assert (Hw : w' = w /\ audio_thread w = None).
  { destruct (audio_thread w).
    - destruct H as [H|[H|H]]; discriminate.
    - destruct H as [H|[H|H]]; injection H as <-; auto. }
  destruct Hw as [-> Hnone].
  repeat split; auto.
  eexists. repeat split; reflexivity.
Qed.

End Configuration.

(** ** The properties at concrete inputs *)

Section Instances.

Import Samples.

(** The matching stage on exact tone pairs: every table entry is the match of
    its own pair of frequencies. *)
Lemma exact_pair_matches_its_symbol :
  Forall (fun item =>
            fst (DTMFDetector.best_match [snd item]) = Some (fst item))
         DTMFDetector.dtmf_freqs.
Proof.
  repeat constructor.
Qed.

(** The detector past the transform, on the table: when the spectrum of a
    block of 2048 samples is two spikes of height 1000 at the bins nearest to
    the two tones of a symbol, that symbol is emitted. *)
Lemma two_spike_spectrum_detected (rfft_abs : frame -> list Q) (audio_data : frame) :
  length audio_data = 2048%nat ->
  Forall (fun item =>
            rfft_abs audio_data = two_spike_spectrum (snd item) 1000 2048 ->
            DTMFDetector.detect_from_data rfft_abs audio_data = Some (fst item))
         DTMFDetector.dtmf_freqs.
Proof.
  intros Hlen.
  repeat (constructor;
          [intros Hspec; unfold DTMFDetector.detect_from_data;
           rewrite Hspec, Hlen; vm_compute; reflexivity|]).
  constructor.
Qed.

(** 733.5 Hz is as far from 697 Hz as from 770 Hz: "2" and "5" tie, and "2"
    comes first in the table. *)
Lemma tie_goes_to_first_key :
  fst (DTMFDetector.best_match [(1467 # 2, 1336)]) = Some "2"%string.
Proof.
  reflexivity.
Qed.

Lemma detect_emits_iff_two_qualifying_witness :
  two_tone <> []
  /\ ((exists s, DTMFDetector.detect_from_data spectrum_as_given two_tone = Some s)
      <-> (2 <= length (DTMFDetector.detected_freqs (length two_tone)
                          (spectrum_as_given two_tone)))%nat).
Proof.
  assert (Hne : two_tone <> []) by discriminate.
  split; [exact Hne|].
  destruct (detect_emits_iff_two_qualifying spectrum_as_given two_tone Hne)
    as [Hiff _].
  exact Hiff.
Defined.

Lemma detect_emits_first_closest_witness :
  DTMFDetector.detect_from_data spectrum_as_given two_tone = Some "2"%string
  /\ Sorted Qle (DTMFDetector.sorted
                   (DTMFDetector.detected_freqs (length two_tone)
                      (spectrum_as_given two_tone))).
Proof.
  assert (Hs : DTMFDetector.detect_from_data spectrum_as_given two_tone
               = Some "2"%string) by (vm_compute; reflexivity).
  split; [exact Hs|].
  destruct (detect_emits_first_closest spectrum_as_given two_tone "2"%string Hs)
    as (_ & Hsorted & _).
  exact Hsorted.
Defined.

Lemma process_queue_rate_limit_witness :
  (DTMFDetector.detection_queue fresh_detector = []
   /\ DTMFDetector.delay fresh_detector
      <= 1 - DTMFDetector.last_detection_time fresh_detector)
  /\ DTMFDetector.analysed
       (DTMFDetector.process_queue spectrum_as_given 1
          (DTMFDetector.detect_dtmf [2] (DTMFDetector.detect_dtmf [1] fresh_detector)))
     = Some [1].
Proof.
  assert (Hdue : DTMFDetector.delay fresh_detector
                 <= 1 - DTMFDetector.last_detection_time fresh_detector)
    by (vm_compute; discriminate).
  split; [split; [reflexivity|exact Hdue]|].
  destruct (process_queue_rate_limit spectrum_as_given fresh_detector [1] [2] 1 2
              eq_refl Hdue) as ((Hfirst & _) & _).
  exact Hfirst.
Defined.

(** C4, the claim as written: on a detector that was just built, a tick
    right after the two enqueues is not due and analyses nothing. *)
Lemma tick_right_after_init_analyses_nothing :
  ~ DTMFDetector.analysed
      (DTMFDetector.process_queue spectrum_as_given 0
         (DTMFDetector.detect_dtmf [2] (DTMFDetector.detect_dtmf [1] fresh_detector)))
    = Some [1].
Proof.
  vm_compute. discriminate.
Qed.


Lemma audio_callback_effect_witness :
  (length [1; -1] = length [0; 0]
   /\ AudioThread.visualizer muted_thread = true)
  /\ exists r,
       AudioThread.audio_callback spectrum_as_given muted_thread muted_heap
         [1; -1] [0; 0] = Ok r
       /\ AudioThread.outdata_after r = [0; 0].
Proof.
  split; [split; reflexivity|].
  destruct (audio_callback_effect spectrum_as_given muted_thread muted_heap
              [1; -1] [0; 0] eq_refl (fun _ => eq_refl))
    as (r & Hr & _ & Hm).
  exists r. split; [exact Hr|]. apply Hm.
Defined.

(** C7, the claim as written: in the muted branch the captured block does
    not reach the detector, and the level meter is given zeros in its
    place. *)
Lemma muted_block_not_handed_on :
  exists r,
    AudioThread.audio_callback spectrum_as_given muted_thread muted_heap
      [50; -50] [0; 0] = Ok r
    /\ ~ In [50; -50]
         (DTMFDetector.detection_queue (AudioThread.detector (AudioThread.thread r)))
    /\ AudioThread.widget (AudioThread.objects r)
       = AudioVisualizer.update_bars spectrum_as_given [0; 0]
           (AudioThread.widget muted_heap)
    /\ AudioThread.widget (AudioThread.objects r)
       <> AudioVisualizer.update_bars spectrum_as_given [50; -50]
            (AudioThread.widget muted_heap).
Proof.
  eexists. split; [reflexivity|].
  split; [intros []|]. split; [reflexivity|].
  intros H. apply (f_equal AudioVisualizer.smoothed_level) in H.
  vm_compute in H. discriminate H.
Qed.

Lemma target_level_silence_witness :
  (Numpy.zeros 2048 <> []
   /\ Numpy.np_max (spectrum_as_given (Numpy.zeros 2048)) == 0
   /\ (0 < AudioVisualizer.height (AudioVisualizer.init 400))%nat)
  /\ AudioVisualizer.target_level spectrum_as_given (AudioVisualizer.init 400)
       (Numpy.zeros 2048) == 4.
Proof.
  assert (Hmax : Numpy.np_max (spectrum_as_given (Numpy.zeros 2048)) == 0)
    by (vm_compute; reflexivity).
  assert (Hh : (0 < AudioVisualizer.height (AudioVisualizer.init 400))%nat)
    by (simpl; lia).
  split; [split; [discriminate|split; [exact Hmax|exact Hh]]|].
  destruct (target_level_silence spectrum_as_given (AudioVisualizer.init 400)
              (Numpy.zeros 2048) ltac:(discriminate) Hmax Hh) as [Heq _].
  rewrite Heq. vm_compute. reflexivity.
Defined.

Lemma zero_blocks_settle_above_zero_witness :
  (MainWindow.stop_transition stopped_window = true
   /\ AudioVisualizer.smoothed_level (MainWindow.visualizer stopped_window) = 0)
  /\ AudioVisualizer.smoothed_level
       (MainWindow.visualizer
          (MainWindow.update_visualizer_transition spectrum_as_given stopped_window))
     - AudioVisualizer.smoothed_level (MainWindow.visualizer stopped_window)
     == (25 # 100) * (4 - 0).
Proof.
  split; [split; reflexivity|].
  destruct (zero_blocks_settle_above_zero spectrum_as_given stopped_window)
    as (_ & _ & Hstep & _).
  - reflexivity.
  - simpl; lia.
  - vm_compute; reflexivity.
  - split; vm_compute; reflexivity.
  - rewrite Hstep. vm_compute. reflexivity.
Defined.

Lemma setters_leave_next_stream_default_witness :
  MainWindow.set_sample_rate 48000 new_window = Ok new_window
  /\ exists th,
       MainWindow.audio_thread (MainWindow.start_detection 1 new_window) = Some th
       /\ AudioThread.sample_rate th = 44100.
Proof.
  split; [reflexivity|].
  destruct (setters_leave_next_stream_default new_window new_window 48000 1
              (or_introl eq_refl)) as (_ & _ & th & Hth & Hrate & _).
  exists th. split; [exact Hth|exact Hrate].
Defined.

(** C10, the claim as written: 48000 passed to [set_sample_rate] before a
    start is not the rate of the stream started next. *)
Lemma sample_rate_setting_is_lost :
  exists w th,
    MainWindow.set_sample_rate 48000 new_window = Ok w
    /\ MainWindow.audio_thread (MainWindow.start_detection 1 w) = Some th
    /\ ~ AudioThread.sample_rate th == 48000.
Proof.
  eexists. eexists. split; [reflexivity|]. split; [reflexivity|].
  vm_compute. discriminate.
Qed.

End Instances.

(** * Further properties *)

(** ** Blocks that cannot fire *)

Section SilentAndShort.

Variable rfft_abs : frame -> list Q.

Import DTMFDetector.

Lemma nth_bounded (l : list Q) (k : nat) (b : Q) :
  0 <= b -> Forall (fun m => m <= b) l -> nth k l 0 <= b.
Proof.
  intros Hb Hall. destruct (nth_in_or_default k l 0) as [Hin|Hdef].
  - rewrite Forall_forall in Hall. auto.
  - now rewrite Hdef.
Qed.

Lemma filter_none {A : Type} (f : A -> bool) (l : list A) :
  (forall x, In x l -> f x = false) -> filter f l = [].
Proof.
  induction l as [|a l IH]; intros H; simpl; [reflexivity|].
  rewrite (H a (or_introl eq_refl)). apply IH. intros x Hx. apply H. now right.
Qed.

Lemma detect_from_data_none (audio_data : frame) :
  (length (detected_freqs (length audio_data) (rfft_abs audio_data)) < 2)%nat ->
  detect_from_data rfft_abs audio_data = None.
Proof.
  intros H. unfold detect_from_data.
  destruct (length audio_data =? 0)%nat; [reflexivity|].
  apply Nat.ltb_lt in H. now rewrite H.
Qed.

(** X1: a block none of whose magnitudes exceeds 13 emits nothing, whatever
    its length; in particular a block with an all-zero spectrum. *)
Theorem quiet_block_emits_nothing (audio_data : frame) :
  Forall (fun m => m <= 13) (rfft_abs audio_data) ->
  detect_from_data rfft_abs audio_data = None.
Proof.
  intros Hquiet. apply detect_from_data_none.
  unfold detected_freqs.
  replace (filter (fun p => Qltb 13 (nth p (rfft_abs audio_data) 0))
             (peaks (rfft_abs audio_data))) with (@nil nat); [simpl; lia|].
  symmetry. apply filter_none. intros p _.
  apply Qltb_ge, nth_bounded; [lra|exact Hquiet].
Qed.

Lemma freq_off_axis (n k : nat) :
  (n / 2 < k)%nat -> nth k (freq n) 0 = 0.
Proof.
  intros H. apply nth_overflow. rewrite freq_length. lia.
Qed.

(** A frequency of at least 600 Hz belongs to a bin on the axis of a
    non-empty block. *)
Lemma valid_frequency_bin (n k : nat) :
  600 <= nth k (freq n) 0 -> (0 < n)%nat /\ (k <= n / 2)%nat.
Proof.
  intros Hlo.
  assert (Hk : (k <= n / 2)%nat).
  { destruct (Nat.le_gt_cases k (n / 2)) as [H|H]; [exact H|].
    rewrite (freq_off_axis n k H) in Hlo. lra. }
  split; [|exact Hk].
  destruct n; [|lia]. simpl in Hk. replace k with 0%nat in Hlo by lia.
  vm_compute in Hlo. exfalso. apply Hlo. reflexivity.
Qed.

(** Two entries that survive a filter over a list with gaps come from two
    elements that far apart. *)
Lemma two_survivors {B : Type} (d : nat) (f : nat -> B) (P : B -> bool) (l : list nat) :
  gap d l ->
  (2 <= length (filter P (map f l)))%nat ->
  exists a b,
    In a l /\ In b l /\ (a + d <= b)%nat /\ P (f a) = true /\ P (f b) = true.
Proof.
  induction 1 as [|a l Hs IH Hall]; simpl; [lia|].
  destruct (P (f a)) eqn:Ha.
  - simpl. intros Hlen.
    destruct (filter P (map f l)) as [|y rest] eqn:E; [simpl in Hlen; lia|].
    assert (Hy : In y (filter P (map f l))) by (rewrite E; now left).
    apply filter_In in Hy. destruct Hy as [Hy HP].
    apply in_map_iff in Hy. destruct Hy as (b & <- & Hb).
    rewrite Forall_forall in Hall.
    exists a, b. repeat split; auto.
  - intros Hlen. destruct (IH Hlen) as (x & y & Hx & Hy & Hxy & HPx & HPy).
    exists x, y. repeat split; auto.
Qed.

Lemma nat_to_Q_plus (a b : nat) : nat_to_Q (a + b) == nat_to_Q a + nat_to_Q b.
Proof.
  unfold nat_to_Q. rewrite Nat2Z.inj_add, inject_Z_plus. reflexivity.
Qed.

Lemma loud_peaks_gap (magnitudes : list Q) :
  gap 2 (filter (fun p => Qltb 13 (nth p magnitudes 0)) (peaks magnitudes)).
Proof.
  apply gap_filter. unfold peaks. rewrite find_peaks_distance_2.
  apply gap_filter, local_maxima_1d_gap.
Qed.

(** On the axis of a block of fewer than 104 samples no two bins that are
    at least 2 apart both lie within 600..1700 Hz. *)
Lemma short_axis (n a b : nat) :
  (n < 104)%nat -> (a + 2 <= b)%nat ->
  600 <= nth a (freq n) 0 <= 1700 -> 600 <= nth b (freq n) 0 <= 1700 ->
  False.
Proof.
  intros Hn Hab [Ha1 Ha2] [Hb1 Hb2].
  set (P := fun f : Q => Qle_bool 600 f && Qle_bool f 1700).
  assert (Hall :
    forallb (fun n =>
      let fl := map P (freq n) in
      forallb (fun a =>
        forallb (fun b => negb (nth a fl false && nth b fl false
                                && (a + 2 <=? b)%nat))
          (seq 0 (length fl))) (seq 0 (length fl)))
      (seq 0 104) = true) by (vm_compute; reflexivity).
  rewrite forallb_forall in Hall.
  specialize (Hall n ltac:(apply in_seq; lia)). cbv zeta in Hall.
  destruct (valid_frequency_bin _ _ Ha1) as [_ Hka].
  destruct (valid_frequency_bin _ _ Hb1) as [_ Hkb].
  rewrite length_map, freq_length in Hall.
  rewrite forallb_forall in Hall.
  specialize (Hall a ltac:(apply in_seq; lia)).
  rewrite forallb_forall in Hall.
  specialize (Hall b ltac:(apply in_seq; lia)).
  change false with (P 0) in Hall. rewrite !map_nth in Hall.
  assert (Pa : P (nth a (freq n) 0) = true)
    by (apply andb_true_iff; split; now apply Qle_bool_iff).
  assert (Pb : P (nth b (freq n) 0) = true)
    by (apply andb_true_iff; split; now apply Qle_bool_iff).
  assert (Hle : (a + 2 <=? b)%nat = true) by (apply Nat.leb_le; exact Hab).
  rewrite Pa, Pb, Hle in Hall. discriminate Hall.
Qed.

(** X2: a block of fewer than 104 samples emits nothing: no two bins that are
    at least 2 apart both have their frequency within 600..1700 Hz. *)
Theorem short_block_emits_nothing (audio_data : frame) :
  (length audio_data < 104)%nat ->
  detect_from_data rfft_abs audio_data = None.
Proof.
  intros Hshort. apply detect_from_data_none.
  apply Nat.nle_gt. intros Htwo.
  unfold detected_freqs in Htwo.
  destruct (two_survivors 2 _ _ _ (loud_peaks_gap (rfft_abs audio_data)) Htwo)
    as (a & b & _ & _ & Hab & Ha & Hb).
  apply andb_true_iff in Ha, Hb.
  destruct Ha as [Ha1 Ha2], Hb as [Hb1 Hb2].
  apply Qle_bool_iff in Ha1, Ha2, Hb1, Hb2. simpl in Ha1, Ha2, Hb1, Hb2.
  apply (short_axis (length audio_data) a b Hshort Hab); split; assumption.
Qed.

End SilentAndShort.

(** ** The candidates in order, and how far off they may be *)

Section Decoding.

Variable rfft_abs : frame -> list Q.

Import DTMFDetector.

Lemma filter_map_ascending (d : nat) (f : nat -> Q) (P : Q -> bool) (l : list nat) :
  gap d l ->
  (forall a b, (a + d <= b)%nat -> P (f a) = true -> P (f b) = true -> f a <= f b) ->
  StronglySorted Qle (filter P (map f l)).
Proof.
  intros Hgap Hmono. induction Hgap as [|a l Hs IH Hall]; simpl; [constructor|].
  destruct (P (f a)) eqn:Ha; [|exact IH].
  constructor; [exact IH|].
  apply Forall_forall. intros y Hy.
  apply filter_In in Hy. destruct Hy as [Hy HP].
  apply in_map_iff in Hy. destruct Hy as (b & <- & Hb).
  rewrite Forall_forall in Hall. auto.
Qed.

Lemma detected_freqs_ascending (n : nat) (magnitudes : list Q) :
  StronglySorted Qle (detected_freqs n magnitudes).
Proof.
  unfold detected_freqs.
  apply (filter_map_ascending 2); [apply loud_peaks_gap|].
  intros a b Hab Ha Hb.
  apply andb_true_iff in Ha, Hb.
  destruct Ha as [Ha1 Ha2], Hb as [Hb1 Hb2].
  apply Qle_bool_iff in Ha1, Ha2, Hb1, Hb2. simpl in Ha1, Ha2, Hb1, Hb2.
  destruct (valid_frequency_bin _ _ Hb1) as [_ Hkb].
  apply freq_monotone; [lia|exact Hkb].
Qed.

Lemma insert_sorted_last (x : Q) (acc : list Q) :
  Forall (fun a => a <= x) acc -> insert_sorted x acc = acc ++ [x].
Proof.
  induction 1 as [|a acc Ha Hall IH]; simpl; [reflexivity|].
  assert (E : Qltb x a = false) by (apply Qltb_ge; exact Ha).
  now rewrite E, IH.
Qed.

Lemma fold_insert_sorted_ascending (l acc : list Q) :
  StronglySorted Qle l ->
  Forall (fun a => Forall (fun x => a <= x) l) acc ->
  fold_left (fun acc x => insert_sorted x acc) l acc = acc ++ l.
Proof.
  intros Hl. revert acc.
  induction Hl as [|x l Hs IH Hx]; intros acc Hacc; simpl.
  - now rewrite app_nil_r.
  - rewrite insert_sorted_last.
    + rewrite IH; [now rewrite <- app_assoc|].
      apply Forall_app. split.
      * eapply Forall_impl; [|exact Hacc]. intros a Ha. now inversion Ha.
      * constructor; [exact Hx|constructor].
    + eapply Forall_impl; [|exact Hacc]. intros a Ha. now inversion Ha.
Qed.

Lemma sorted_detected_freqs (n : nat) (magnitudes : list Q) :
  sorted (detected_freqs n magnitudes) = detected_freqs n magnitudes.
Proof.
  unfold sorted. rewrite fold_insert_sorted_ascending; [reflexivity| |constructor].
  apply detected_freqs_ascending.
Qed.

(** X3: the candidate frequencies come out of the two masks in ascending
    order, so [sorted] returns them unchanged and the pairs are pairs of
    consecutive candidates. *)
Theorem sort_leaves_candidates_unchanged (n : nat) (magnitudes : list Q) :
  StronglySorted Qle (detected_freqs n magnitudes)
  /\ sorted (detected_freqs n magnitudes) = detected_freqs n magnitudes
  /\ possible_pairs (sorted (detected_freqs n magnitudes))
     = possible_pairs (detected_freqs n magnitudes).
Proof.
  split; [apply detected_freqs_ascending|].
  split; [apply sorted_detected_freqs|].
  now rewrite sorted_detected_freqs.
Qed.

Lemma abs_triangle (a b c : Q) : Qabs (b - c) <= Qabs (a - b) + Qabs (a - c).
Proof.
  pattern (Qabs (b - c)); apply Qabs_case; intros H1;
    pattern (Qabs (a - b)); apply Qabs_case; intros H2;
    pattern (Qabs (a - c)); apply Qabs_case; intros H3; lra.
Qed.

(** Two table entries with different keys are at least 73 Hz apart. *)
Lemma dtmf_freqs_apart (k1 k2 : string) (l1 h1 l2 h2 : Q) :
  In (k1, (l1, h1)) dtmf_freqs -> In (k2, (l2, h2)) dtmf_freqs -> k1 <> k2 ->
  73 <= Qabs (l1 - l2) + Qabs (h1 - h2).
Proof.
  intros H1 H2 Hne.
  assert (Hall : forallb (fun e1 =>
                   forallb (fun e2 =>
                     String.eqb (fst e1) (fst e2)
                     || Qle_bool 73 (Qabs (fst (snd e1) - fst (snd e2))
                                    + Qabs (snd (snd e1) - snd (snd e2))))
                     dtmf_freqs) dtmf_freqs = true) by (vm_compute; reflexivity).
  rewrite forallb_forall in Hall. specialize (Hall _ H1).
  rewrite forallb_forall in Hall. specialize (Hall _ H2).
  simpl in Hall. apply orb_true_iff in Hall. destruct Hall as [Heq|Hle].
  - apply String.eqb_eq in Heq. contradiction.
  - now apply Qle_bool_iff in Hle.
Qed.

Lemma detect_from_data_first_minimum (audio_data : frame) :
  audio_data <> [] ->
  (2 <= length (detected_freqs (length audio_data) (rfft_abs audio_data)))%nat ->
  exists key d,
    detect_from_data rfft_abs audio_data = Some key
    /\ first_minimum
         (possible_pairs (sorted (detected_freqs (length audio_data)
                                    (rfft_abs audio_data))))
         dtmf_freqs (Some key, Some d).
Proof.
  intros Hne Htwo.
  destruct (detect_from_data_loop rfft_abs audio_data Hne Htwo)
    as (key & d & Hkey & Hbest).
  exists key, d. split; [exact Hkey|].
  rewrite <- Hbest. apply fold_try_key_first_minimum; [|discriminate].
  apply possible_pairs_nonempty. now rewrite sorted_length.
Qed.

(** X4: when exactly two candidate frequencies are left and they are within
    36.5 Hz (in total) of the two tones of a table entry, the symbol of that
    entry is emitted. *)
Theorem two_candidates_near_a_symbol (audio_data : frame) (key : string)
        (lo hi f1 f2 : Q) :
  audio_data <> [] ->
  detected_freqs (length audio_data) (rfft_abs audio_data) = [f1; f2] ->
  In (key, (lo, hi)) dtmf_freqs ->
  distance (f1, f2) lo hi < 73 # 2 ->
  detect_from_data rfft_abs audio_data = Some key.
Proof.
  intros Hne Hfreqs Hin Hnear.
  destruct (detect_from_data_first_minimum audio_data Hne
              ltac:(rewrite Hfreqs; simpl; lia))
    as (key' & d & Hkey & before & k & l & h & later & pair
        & Htab & Hpair & Hst & _ & Hle).
  injection Hst as <- _. rewrite Hkey. f_equal.
  destruct (string_dec key' key) as [Heq|Hne']; [exact Heq|exfalso].
  rewrite sorted_detected_freqs, Hfreqs in Hpair, Hle. simpl in Hpair.
  destruct Hpair as [<-|[]].
  specialize (Hle key lo hi (f1, f2) Hin (or_introl eq_refl)).
  assert (Hin' : In (key', (l, h)) dtmf_freqs) by (rewrite Htab; apply in_elt).
  pose proof (dtmf_freqs_apart key' key l h lo hi Hin' Hin Hne') as Hfar.
  unfold distance in Hle, Hnear. cbn [fst snd] in Hle, Hnear.
  pose proof (abs_triangle f1 l lo). pose proof (abs_triangle f2 h hi).
  lra.
Qed.

End Decoding.

(** ** The pace of the analyses *)

Section Pace.

Variable rfft_abs : frame -> list Q.

Import DTMFDetector.

Lemma process_queue_delay (now : Q) (d : t) :
  delay (after (process_queue rfft_abs now d)) = delay d.
Proof.
  unfold process_queue.
  destruct (Qle_bool _ _); [|reflexivity].
  destruct (detection_queue d); reflexivity.
Qed.

Lemma process_queue_clock (now : Q) (d : t) :
  match analysed (process_queue rfft_abs now d) with
  | Some _ =>
      delay d <= now - last_detection_time d
      /\ last_detection_time (after (process_queue rfft_abs now d)) = now
  | None =>
      last_detection_time (after (process_queue rfft_abs now d))
      = last_detection_time d
  end.
Proof.
  unfold process_queue.
  destruct (Qle_bool _ _) eqn:E; [|reflexivity].
  apply Qle_bool_iff in E.
  destruct (detection_queue d); simpl; auto.
Qed.

Lemma analysis_times_spaced (ops : list Schedule.op) :
  forall d,
    spaced (delay d)
      (last_detection_time d :: Timeline.analysis_times rfft_abs ops d).
Proof.
  induction ops as [|[f|now] ops IH]; intros d; cbn [Timeline.analysis_times].
  - exact I.
  - apply (IH (detect_dtmf f d)).
  - pose proof (process_queue_clock now d) as Hc.
    pose proof (process_queue_delay now d) as Hd.
    specialize (IH (after (process_queue rfft_abs now d))).
    rewrite Hd in IH.
    destruct (analysed (process_queue rfft_abs now d)).
    + destruct Hc as [Hdue Hlast]. rewrite Hlast in IH.
      split; [exact Hdue|exact IH].
    + rewrite Hc in IH. exact IH.
Qed.

Lemma last_cons (l : list Q) :
  forall a d, last (a :: l) d = last l a.
Proof.
  induction l as [|b l IH]; intros a d; [reflexivity|].
  transitivity (last (b :: l) d); [reflexivity|].
  now rewrite (IH b d), (IH b a).
Qed.

Lemma spaced_span (D t0 : Q) (ts : list Q) :
  spaced D (t0 :: ts) ->
  nat_to_Q (length ts) * D <= last ts t0 - t0.
Proof.
  revert t0. induction ts as [|t1 ts IH]; intros t0 H.
  - simpl. change (nat_to_Q 0) with 0. lra.
  - destruct H as [H01 Hrest]. specialize (IH t1 Hrest).
    assert (Hlast : last (t1 :: ts) t0 = last ts t1) by apply last_cons.
    rewrite Hlast.
    change (length (t1 :: ts)) with (S (length ts)).
    replace (S (length ts)) with (length ts + 1)%nat by lia.
    rewrite nat_to_Q_plus. change (nat_to_Q 1) with 1. lra.
Qed.

Lemma analysis_times_count (ops : list Schedule.op) :
  forall d,
    length (Timeline.analysis_times rfft_abs ops d)
    = length (snd (Schedule.run rfft_abs ops d)).
Proof.
  induction ops as [|[f|now] ops IH]; intros d;
    cbn [Timeline.analysis_times Schedule.run]; [reflexivity|apply IH|].
  specialize (IH (after (process_queue rfft_abs now d))).
  destruct (Schedule.run rfft_abs ops (after (process_queue rfft_abs now d)))
    as [d' done].
  destruct (analysed (process_queue rfft_abs now d)); simpl in *; lia.
Qed.

Lemma run_lengths (ops : list Schedule.op) :
  forall d,
    (length (snd (Schedule.run rfft_abs ops d))
     + length (detection_queue (fst (Schedule.run rfft_abs ops d)))
     = length (detection_queue d) + length (Schedule.arrivals ops))%nat.
Proof.
  induction ops as [|[f|now] ops IH]; intros d; simpl.
  - lia.
  - rewrite IH. simpl. rewrite length_app. simpl. lia.
  - pose proof (process_queue_conserves rfft_abs now d) as Hc.
    pose proof (IH (after (process_queue rfft_abs now d))) as Hr.
    destruct (Schedule.run rfft_abs ops (after (process_queue rfft_abs now d)))
      as [d' done].
    simpl in Hr.
    destruct (analysed (process_queue rfft_abs now d)) as [f|];
      simpl; rewrite <- Hc; simpl; lia.
Qed.

(** X5: in every run the clock readings of the ticks that analysed a block
    are at least [delay] apart, the first of them at least [delay] after the
    detector's [last_detection_time]; so after [m] analyses at least
    [m * delay] has passed on the clock.  Nothing is assumed about the
    clock. *)
Theorem analyses_are_delay_apart (ops : list Schedule.op) (d : t) :
  let times := Timeline.analysis_times rfft_abs ops d in
  spaced (delay d) (last_detection_time d :: times)
  /\ nat_to_Q (length times) * delay d
     <= last times (last_detection_time d) - last_detection_time d
  /\ length times = length (snd (Schedule.run rfft_abs ops d)).
Proof.
  intros times. pose proof (analysis_times_spaced ops d) as Hs.
  split; [exact Hs|]. split; [now apply spaced_span|].
  apply analysis_times_count.
Qed.

Lemma analysis_times_by (T : Q) (ops : list Schedule.op) :
  Forall (tick_by T) ops ->
  forall d, Forall (fun now => now <= T) (Timeline.analysis_times rfft_abs ops d).
Proof.
  induction 1 as [|[f|now] ops Ho Hall IH]; intros d;
    cbn [Timeline.analysis_times]; [constructor|apply IH|].
  destruct (analysed (process_queue rfft_abs now d)); [constructor|]; auto.
Qed.

Lemma last_bounded (T t0 : Q) (ts : list Q) :
  t0 <= T -> Forall (fun now => now <= T) ts -> last ts t0 <= T.
Proof.
  intros H0 Hall. revert t0 H0.
  induction Hall as [|t1 ts H1 Hall IH]; intros t0 H0; [exact H0|].
  rewrite last_cons. apply IH. exact H1.
Qed.

(** X6: the backlog.  With a positive delay, a run whose ticks all read the
    clock at or before [T] leaves at least
    [queued + arrived - (T - last_detection_time) / delay] blocks in the
    queue: blocks arriving faster than one per [delay] pile up without
    bound. *)
Theorem queue_backlog (ops : list Schedule.op) (d : t) (T : Q) :
  0 < delay d ->
  last_detection_time d <= T ->
  Forall (tick_by T) ops ->
  nat_to_Q (length (detection_queue d) + length (Schedule.arrivals ops))
  - (T - last_detection_time d) / delay d
  <= nat_to_Q (length (detection_queue (fst (Schedule.run rfft_abs ops d)))).
Proof.
  intros Hdelay H0 Hticks.
  pose proof (analysis_times_spaced ops d) as Hs.
  apply spaced_span in Hs.
  pose proof (last_bounded T _ _ H0 (analysis_times_by T ops Hticks d)) as Hlast.
  pose proof (analysis_times_count ops d) as Hcount.
  pose proof (run_lengths ops d) as Hfifo.
  rewrite <- Hfifo, nat_to_Q_plus, <- Hcount.
  set (m := nat_to_Q (length (Timeline.analysis_times rfft_abs ops d))) in *.
  assert (Hm : m <= (T - last_detection_time d) / delay d).
  { apply Qle_shift_div_l; [exact Hdelay|]. lra. }
  lra.
Qed.

End Pace.

(** ** The meter on screen *)

Section Meter.

Variable rfft_abs : frame -> list Q.

Import AudioVisualizer.

Lemma update_bars_between (self : t) (audio_data : frame) :
  0 <= smoothing_factor self <= 1 ->
  let target := target_level rfft_abs self audio_data in
  let s' := smoothed_level (update_bars rfft_abs audio_data self) in
  s' - target == (1 - smoothing_factor self) * (smoothed_level self - target)
  /\ Qmin (smoothed_level self) target <= s'
  /\ s' <= Qmax (smoothed_level self) target.
Proof.
  intros Ha target s'. subst s'. unfold update_bars. cbn [smoothed_level].
  fold target.
  generalize dependent target. intros target.
  generalize (smoothed_level self) as s. generalize dependent (smoothing_factor self).
  intros a Ha s.
  split; [ring|].
  destruct (Q.min_spec s target) as [[Hlt Hmin]|[Hle Hmin]];
    destruct (Q.max_spec s target) as [[Hlt' Hmax]|[Hle' Hmax]];
    rewrite Hmin, Hmax; split; nra.
Qed.

(** X7: with a smoothing factor in [0, 1], one [update_bars] moves the
    smoothed level toward the block's target by that fraction of the gap,
    never past the target, and a level inside the widget stays inside. *)
Theorem update_bars_stays_inside (self : t) (audio_data : frame) :
  0 <= smoothing_factor self <= 1 ->
  0 <= smoothed_level self <= nat_to_Q (height self) ->
  let target := target_level rfft_abs self audio_data in
  let self' := update_bars rfft_abs audio_data self in
  smoothed_level self' - target
  == (1 - smoothing_factor self) * (smoothed_level self - target)
  /\ Qmin (smoothed_level self) target <= smoothed_level self'
  /\ smoothed_level self' <= Qmax (smoothed_level self) target
  /\ 0 <= smoothed_level self' <= nat_to_Q (height self')
  /\ height self' = height self
  /\ smoothing_factor self' = smoothing_factor self.
Proof.
  intros Ha Hs target self'.
  destruct (update_bars_between self audio_data Ha) as (Heq & Hlo & Hhi).
  fold target in Heq, Hlo, Hhi. fold self' in Heq, Hlo, Hhi.
  pose proof (target_level_bounds rfft_abs self audio_data) as Ht.
  fold target in Ht.
  repeat split; auto.
  - eapply Qle_trans; [|exact Hlo]. apply Q.min_glb; lra.
  - eapply Qle_trans; [exact Hhi|]. apply Q.max_lub; simpl; lra.
Qed.

Lemma int_nonneg (x : Q) :
  0 <= x -> (0 <= Painting.int x)%Z /\ inject_Z (Painting.int x) <= x
            /\ x < inject_Z (Painting.int x + 1).
Proof.
  intros Hx. unfold Painting.int.
  apply Qle_bool_iff in Hx. rewrite Hx. apply Qle_bool_iff in Hx.
  repeat split.
  - change 0%Z with (Qfloor 0). now apply Qfloor_resp_le.
  - apply Qfloor_le.
  - apply Qlt_floor.
Qed.

(** X8: for a level inside the widget, the bar [paintEvent] draws starts at
    the left edge, ends at the bottom edge and does not leave the widget; its
    height is the level rounded down. *)
Theorem bar_inside_widget (bar_width : Z) (self : t) :
  0 <= smoothed_level self <= nat_to_Q (height self) ->
  let r := Painting.paintEvent bar_width self in
  Painting.rect_x r = 0%Z
  /\ Painting.rect_w r = bar_width
  /\ (0 <= Painting.rect_y r)%Z
  /\ (Painting.rect_y r + Painting.rect_h r = Z.of_nat (height self))%Z
  /\ (0 <= Painting.rect_h r)%Z
  /\ inject_Z (Painting.rect_h r) <= smoothed_level self
  /\ smoothed_level self < inject_Z (Painting.rect_h r + 1).
Proof.
  intros [H0 H1] r. subst r. unfold Painting.paintEvent. simpl.
  destruct (int_nonneg _ H0) as (Hi & Hle & Hlt).
  repeat split; auto; try lia.
  assert (Hh : inject_Z (Painting.int (smoothed_level self))
               <= inject_Z (Z.of_nat (height self))).
  { eapply Qle_trans; [exact Hle|exact H1]. }
  rewrite <- Zle_Qle in Hh. lia.
Qed.

End Meter.

(** ** When the callback raises *)

Section CallbackErrors.

Variable rfft_abs : frame -> list Q.

Import AudioThread.

Lemma assign_raises (outdata src : frame) (e : exn) :
  assign outdata src = Raise e
  <-> length src <> length outdata /\ length src <> 1%nat /\ e = ValueError.
Proof.
  unfold assign.
  destruct (length src =? length outdata)%nat eqn:E.
  - apply Nat.eqb_eq in E. split; [discriminate|]. intros (H & _). contradiction.
  - apply Nat.eqb_neq in E.
    destruct src as [|x [|y rest]]; simpl.
    + split; [intros H; injection H as <-; repeat split; auto; discriminate|reflexivity || auto].
      intros (_ & _ & ->). reflexivity.
    + split; [discriminate|]. intros (_ & H & _). contradiction.
    + split; [intros H; injection H as <-; repeat split; auto; simpl; lia|].
      intros (_ & _ & ->). reflexivity.
Qed.

(** X9: [audio_callback] raises in two cases only: [AttributeError] when it
    is muted and the thread has no visualizer, and [ValueError] when it is
    not muted and the input block neither has the length of the output
    buffer nor length 1. *)
Theorem audio_callback_raises (self : t) (h : heap) (indata outdata : frame)
        (e : exn) :
  audio_callback rfft_abs self h indata outdata = Raise e
  <-> (main_window self && stop_transition h = true
       /\ visualizer self = false /\ e = AttributeError)
      \/ (main_window self && stop_transition h = false
          /\ length indata <> length outdata
          /\ length indata <> 1%nat /\ e = ValueError).
Proof.
  unfold audio_callback.
  destruct (main_window self && stop_transition h) eqn:Hm.
  - destruct (visualizer self) eqn:Hv.
    + rewrite assign_same_length by (unfold Numpy.zeros_like; apply zeros_length).
      split; [discriminate|].
      intros [(_ & H & _)|(H & _)]; discriminate.
    + split.
      * intros H. injection H as <-. left. auto.
      * intros [(_ & _ & ->)|(H & _)]; [reflexivity|discriminate].
  - destruct (assign outdata indata) as [out|e'] eqn:Ha.
    + split; [discriminate|].
      intros [(H & _)|(_ & H1 & H2 & ->)]; [discriminate|].
      assert (Hr : assign outdata indata = Raise ValueError)
        by (apply assign_raises; auto).
      congruence.
    + apply assign_raises in Ha. destruct Ha as (H1 & H2 & ->).
      split.
      * intros H. injection H as <-. right. auto.
      * intros [(H & _)|(_ & _ & _ & ->)]; [discriminate|reflexivity].
Qed.

End CallbackErrors.

(** ** The window over a run of events *)

Section Events.

Variable rfft_abs : frame -> list Q.

Import Application.

Lemma detect_from_data_table_key (audio_data : frame) (c : string) :
  DTMFDetector.detect_from_data rfft_abs audio_data = Some c -> table_key c.
Proof.
  intros Hc. unfold DTMFDetector.detect_from_data in Hc.
  destruct (length audio_data =? 0)%nat; [discriminate|].
  destruct (length _ <? 2)%nat eqn:E; [discriminate|].
  apply Nat.ltb_ge in E.
  match type of Hc with
  | context [DTMFDetector.best_match ?p] =>
      assert (Hp : p <> [])
        by (apply possible_pairs_nonempty; now rewrite sorted_length);
      destruct (fold_try_key_first_minimum p Hp DTMFDetector.dtmf_freqs
                  ltac:(discriminate))
        as (before & key & lo & hi & later & pair & Htab & _ & Hst & _);
      fold (DTMFDetector.best_match p) in Hst; rewrite Hst in Hc
  end.
  simpl in Hc. destruct (truthy key); [|discriminate]. injection Hc as <-.
  unfold table_key. rewrite Htab, map_app. apply in_or_app. right. now left.
Qed.

Lemma consistent_init (h : nat) (input output : option Z) :
  consistent (init h input output).
Proof.
  split; reflexivity.
Qed.

Lemma step_consistent (e : event) (s s' : t) :
  consistent s -> step rfft_abs e s = Ok s' -> consistent s'.
Proof.
  intros Hc Hstep. pose proof Hc as [Hb Ht]. destruct e; simpl in Hstep.
  - injection Hstep as <-.
    destruct (start_button s) eqn:E; [|exact Hc].
    split; [reflexivity|]. simpl. repeat split; reflexivity.
  - injection Hstep as <-.
    destruct (stop_button s) eqn:E; [|exact Hc].
    split; [reflexivity|]. simpl. unfold MainWindow.stop_detection.
    destruct (MainWindow.audio_thread (window s)); [reflexivity|discriminate Ht].
  - injection Hstep as <-. split; assumption.
  - injection Hstep as <-. split; [exact Hb|]. simpl.
    unfold MainWindow.update_visualizer_transition.
    destruct (MainWindow.stop_transition (window s)) eqn:Est; [|exact (proj2 Hc)].
    simpl. destruct (MainWindow.audio_thread (window s)); [|exact Ht].
    destruct Ht as (_ & Hf & _). discriminate Hf.
  - unfold audio_block in Hstep.
    destruct (MainWindow.audio_thread (window s)) as [th|] eqn:Eth.
    + destruct Ht as (Hstop & Htrans & Hrate & Hbuf & Hdel & Hwin & Hvis & Hrun).
      unfold AudioThread.audio_callback in Hstep.
      rewrite Hwin in Hstep. simpl in Hstep.
      destruct (AudioThread.assign outdata indata); [|discriminate].
      injection Hstep as <-. split; [exact Hb|]. simpl.
      repeat split; auto.
    + injection Hstep as <-. exact Hc.
  - injection Hstep as <-. unfold iteration.
    destruct (MainWindow.audio_thread (window s)) as [th|] eqn:Eth.
    + destruct Ht as (Hstop & Htrans & Hrate & Hbuf & Hdel & Hwin & Hvis & Hrun).
      assert (Hc' : consistent
                (with_window s
                   {| MainWindow.stop_transition := MainWindow.stop_transition (window s);
                      MainWindow.visualizer := MainWindow.visualizer (window s);
                      MainWindow.audio_thread :=
                        Some (AudioThread.with_detector th
                                (DTMFDetector.after
                                   (DTMFDetector.process_queue rfft_abs now
                                      (AudioThread.detector th))));
                      MainWindow.input_combo := MainWindow.input_combo (window s);
                      MainWindow.output_combo := MainWindow.output_combo (window s) |})).
      { split; [exact Hb|]. simpl. repeat split; auto.
        cbn [AudioThread.with_detector AudioThread.detector].
        rewrite process_queue_delay. exact Hdel. }
      destruct (DTMFDetector.emitted _); exact Hc'.
    + exact Hc.
  - destruct (set which value (window s)) as [w|] eqn:Eset; [|discriminate].
    injection Hstep as <-.
    assert (Hw : w = window s).
    { destruct which; simpl in Eset;
        unfold MainWindow.set_sample_rate, MainWindow.set_timing,
          MainWindow.set_buffer_size in Eset;
        destruct (MainWindow.audio_thread (window s)); congruence. }
    subst w. exact Hc.
Qed.

Lemma run_consistent (events : list event) :
  forall s s', consistent s -> run rfft_abs events s = Ok s' -> consistent s'.
Proof.
  induction events as [|e events IH]; intros s s' Hc Hrun; simpl in Hrun.
  - injection Hrun as <-. exact Hc.
  - destruct (step rfft_abs e s) as [s1|] eqn:E; [|discriminate].
    apply (IH s1 s'); [|exact Hrun]. now apply (step_consistent e s).
Qed.

(** X10: after any run of events from the freshly built window that does not
    raise, exactly one of the two buttons is enabled; the stop button is
    enabled exactly when a thread exists; and a thread that exists runs with
    44100 Hz, blocks of 2048 and a delay of 0.2 s, holds the visualizer and
    no window, while [stop_transition] is off. *)
Theorem window_stays_consistent (h : nat) (input output : option Z)
        (events : list event) (s : t) :
  run rfft_abs events (init h input output) = Ok s ->
  start_button s = negb (stop_button s)
  /\ (stop_button s = true <-> MainWindow.audio_thread (window s) <> None)
  /\ (MainWindow.stop_transition (window s) = true ->
      MainWindow.audio_thread (window s) = None)
  /\ forall th,
       MainWindow.audio_thread (window s) = Some th ->
       AudioThread.sample_rate th = 44100
       /\ AudioThread.buffer_size th = 2048
       /\ DTMFDetector.delay (AudioThread.detector th) = 2 # 10
       /\ AudioThread.main_window th = false
       /\ AudioThread.visualizer th = true.
Proof.
  intros Hrun.
  destruct (run_consistent events _ _ (consistent_init h input output) Hrun)
    as [Hb Ht].
  split; [exact Hb|].
  destruct (MainWindow.audio_thread (window s)) as [th|].
  - destruct Ht as (Hstop & Htrans & Hrate & Hbuf & Hdel & Hwin & Hvis & _).
    repeat split; auto; try discriminate; try congruence.
  - repeat split; auto; try congruence; discriminate.
Qed.

(** X11: in every state a run from the freshly built window reaches, a block
    the stream delivers to a running thread is passed through: the output
    buffer gets the input samples, the block is appended to the detector's
    queue and the meter is updated with it.  The zero-filling branch of
    [audio_callback] is never taken. *)
Theorem reachable_callback_passes_through (h : nat) (input output : option Z)
        (events : list event) (s : t) (th : AudioThread.t)
        (indata outdata : frame) :
  run rfft_abs events (init h input output) = Ok s ->
  MainWindow.audio_thread (window s) = Some th ->
  length indata = length outdata ->
  exists s' th',
    audio_block rfft_abs indata outdata s = Ok (s', indata)
    /\ MainWindow.audio_thread (window s') = Some th'
    /\ DTMFDetector.detection_queue (AudioThread.detector th')
       = DTMFDetector.detection_queue (AudioThread.detector th) ++ [indata]
    /\ MainWindow.visualizer (window s')
       = AudioVisualizer.update_bars rfft_abs indata
           (MainWindow.visualizer (window s))
    /\ dtmf_output s' = dtmf_output s.
Proof.
  intros Hrun Hth Hlen.
  destruct (run_consistent events _ _ (consistent_init h input output) Hrun)
    as [_ Ht].
  rewrite Hth in Ht.
  destruct Ht as (_ & _ & _ & _ & _ & Hwin & Hvis & _).
  unfold audio_block. rewrite Hth.
  unfold AudioThread.audio_callback. rewrite Hwin, Hvis. simpl.
  rewrite assign_same_length by exact Hlen.
  eexists. eexists. split; [reflexivity|]. simpl. auto.
Qed.

Lemma step_output_keys (e : event) (s s' : t) :
  Forall table_key (dtmf_output s) ->
  step rfft_abs e s = Ok s' ->
  Forall table_key (dtmf_output s').
Proof.
  intros Hk Hstep. destruct e; simpl in Hstep.
  - injection Hstep as <-. destruct (start_button s); exact Hk.
  - injection Hstep as <-. destruct (stop_button s); exact Hk.
  - injection Hstep as <-. constructor.
  - injection Hstep as <-. exact Hk.
  - unfold audio_block in Hstep.
    destruct (MainWindow.audio_thread (window s)).
    + destruct (AudioThread.audio_callback _ _ _ _ _); [|discriminate].
      injection Hstep as <-. exact Hk.
    + injection Hstep as <-. exact Hk.
  - injection Hstep as <-. unfold iteration.
    destruct (MainWindow.audio_thread (window s)) as [th|]; [|exact Hk].
    destruct (DTMFDetector.emitted _) as [c|] eqn:Ec; [|exact Hk].
    simpl. apply Forall_app. split; [exact Hk|].
    constructor; [|constructor].
    unfold DTMFDetector.process_queue in Ec.
    destruct (Qle_bool _ _); [|discriminate].
    destruct (DTMFDetector.detection_queue _) as [|f rest]; [discriminate|].
    simpl in Ec. now apply (detect_from_data_table_key f).
  - destruct (set which value (window s)); [|discriminate].
    injection Hstep as <-. exact Hk.
Qed.

(** X12: whatever the audio, the text field only ever holds symbols of the
    table: after any run of events from the freshly built window, every
    paragraph of [dtmf_output] is one of the 16 keys. *)
Theorem text_field_holds_table_keys (h : nat) (input output : option Z)
        (events : list event) (s : t) :
  run rfft_abs events (init h input output) = Ok s ->
  Forall table_key (dtmf_output s).
Proof.
  assert (Hgen : forall evs s0 s1,
             Forall table_key (dtmf_output s0) ->
             run rfft_abs evs s0 = Ok s1 ->
             Forall table_key (dtmf_output s1)).
  { induction evs as [|e evs IH]; intros s0 s1 Hk Hrun; simpl in Hrun.
    - injection Hrun as <-. exact Hk.
    - destruct (step rfft_abs e s0) as [s2|] eqn:E; [|discriminate].
      apply (IH s2 s1); [|exact Hrun]. now apply (step_output_keys e s0). }
  intros Hrun.
  apply (Hgen events (init h input output) s); [constructor|exact Hrun].
Qed.

Lemma step_level_inside (h : nat) (e : event) (s s' : t) :
  level_inside h (MainWindow.visualizer (window s)) ->
  step rfft_abs e s = Ok s' ->
  level_inside h (MainWindow.visualizer (window s')).
Proof.
  intros Hl Hstep.
  assert (Hup : forall audio_data,
             level_inside h
               (AudioVisualizer.update_bars rfft_abs audio_data
                  (MainWindow.visualizer (window s)))).
  { intros audio_data. destruct Hl as (Hh & Ha & Hs).
    destruct (update_bars_between rfft_abs (MainWindow.visualizer (window s))
                audio_data) as (_ & Hlo & Hhi); [rewrite Ha; lra|].
    pose proof (target_level_bounds rfft_abs (MainWindow.visualizer (window s))
                  audio_data) as Ht.
    rewrite Hh in Ht.
    repeat split; auto.
    - eapply Qle_trans; [|exact Hlo]. apply Q.min_glb; lra.
    - eapply Qle_trans; [exact Hhi|]. apply Q.max_lub; lra. }
  destruct e; simpl in Hstep.
  - injection Hstep as <-. destruct (start_button s); exact Hl.
  - injection Hstep as <-. destruct (stop_button s); [|exact Hl].
    simpl. unfold MainWindow.stop_detection.
    destruct (MainWindow.audio_thread (window s)); exact Hl.
  - injection Hstep as <-. exact Hl.
  - injection Hstep as <-. simpl.
    unfold MainWindow.update_visualizer_transition.
    destruct (MainWindow.stop_transition (window s)); [|exact Hl].
    simpl. apply Hup.
  - unfold audio_block in Hstep.
    destruct (MainWindow.audio_thread (window s)) as [th|].
    + unfold AudioThread.audio_callback in Hstep.
      cbn [AudioThread.stop_transition AudioThread.widget] in Hstep.
      destruct (AudioThread.main_window th && MainWindow.stop_transition (window s)).
      * destruct (AudioThread.visualizer th); [|discriminate].
        destruct (AudioThread.assign _ _); [|discriminate].
        injection Hstep as <-. simpl. apply Hup.
      * destruct (AudioThread.assign _ _); [|discriminate].
        injection Hstep as <-. simpl.
        destruct (AudioThread.visualizer th); [apply Hup|exact Hl].
    + injection Hstep as <-. exact Hl.
  - injection Hstep as <-. unfold iteration.
    destruct (MainWindow.audio_thread (window s)); [|exact Hl].
    destruct (DTMFDetector.emitted _); exact Hl.
  - destruct (set which value (window s)) as [w|] eqn:Eset; [|discriminate].
    injection Hstep as <-. simpl.
    destruct which; simpl in Eset;
      unfold MainWindow.set_sample_rate, MainWindow.set_timing,
        MainWindow.set_buffer_size in Eset;
      destruct (MainWindow.audio_thread (window s)); try discriminate;
      injection Eset as <-; exact Hl.
Qed.

(** X13: after any run of events from the freshly built window of height
    [h], the smoothed level lies in [0, h], the smoothing factor is still
    0.25, and the bar [paintEvent] would draw lies inside the widget. *)
Theorem meter_stays_inside_widget (h : nat) (input output : option Z)
        (events : list event) (s : t) (bar_width : Z) :
  run rfft_abs events (init h input output) = Ok s ->
  let v := MainWindow.visualizer (window s) in
  let r := Painting.paintEvent bar_width v in
  AudioVisualizer.height v = h
  /\ AudioVisualizer.smoothing_factor v = 25 # 100
  /\ 0 <= AudioVisualizer.smoothed_level v <= nat_to_Q h
  /\ (0 <= Painting.rect_y r)%Z
  /\ (0 <= Painting.rect_h r)%Z
  /\ (Painting.rect_y r + Painting.rect_h r = Z.of_nat h)%Z.
Proof.
  assert (Hgen : forall evs s0 s1,
             level_inside h (MainWindow.visualizer (window s0)) ->
             run rfft_abs evs s0 = Ok s1 ->
             level_inside h (MainWindow.visualizer (window s1))).
  { induction evs as [|e evs IH]; intros s0 s1 Hk Hrun; simpl in Hrun.
    - injection Hrun as <-. exact Hk.
    - destruct (step rfft_abs e s0) as [s2|] eqn:E; [|discriminate].
      apply (IH s2 s1); [|exact Hrun]. now apply (step_level_inside h e s0). }
  intros Hrun v r.
  assert (Hinit : level_inside h
                    (MainWindow.visualizer (window (init h input output)))).
  { repeat split; simpl; [lra|apply nat_to_Q_nonneg]. }
  destruct (Hgen events (init h input output) s Hinit Hrun) as (Hh & Ha & Hs).
  fold v in Hh, Ha, Hs.
  repeat split; auto; try apply Hs.
  - subst r. unfold Painting.paintEvent. simpl.
    destruct (int_nonneg _ (proj1 Hs)) as (Hi & Hle & _).
    assert (Hq : inject_Z (Painting.int (AudioVisualizer.smoothed_level v))
                 <= inject_Z (Z.of_nat h)).
    { eapply Qle_trans; [exact Hle|]. apply Hs. }
    rewrite <- Zle_Qle in Hq. rewrite Hh. lia.
  - subst r. simpl. apply (int_nonneg _ (proj1 Hs)).
  - subst r. simpl. rewrite Hh. lia.
Qed.

End Events.

(** ** The settings dialog *)

Section Dialog.

Variable float : string -> option Q.

Import SettingsDialog.

(** X14: accepting a settings dialog never changes the window.  A text that
    is not a number leaves the dialog open with "Invalid input"; a number
    closes the dialog when no thread exists; a number raises
    [AttributeError] when a thread exists, and nothing else raises. *)
Theorem accept_changes_nothing (which : Application.setting) (self : t)
        (w : MainWindow.t) :
  (forall self' w',
      accept float (Application.set which) self w = Ok (self', w') -> w' = w)
  /\ (float (value_input self) = None ->
      accept float (Application.set which) self w
      = Ok ({| value_input := "Invalid input"; accepted := accepted self |}, w))
  /\ (float (value_input self) <> None ->
      MainWindow.audio_thread w = None ->
      accept float (Application.set which) self w
      = Ok ({| value_input := value_input self; accepted := true |}, w))
  /\ (forall e,
        accept float (Application.set which) self w = Raise e
        <-> e = AttributeError
            /\ float (value_input self) <> None
            /\ MainWindow.audio_thread w <> None).
Proof.
  assert (Hset : forall value,
             Application.set which value w
             = match MainWindow.audio_thread w with
               | Some _ => Raise AttributeError
               | None => Ok w
               end).
  { intros value. destruct which; reflexivity. }
  unfold accept.
  destruct (float (value_input self)) as [value|]; [rewrite Hset|].
  - destruct (MainWindow.audio_thread w) as [th|].
    + split; [discriminate|]. split; [discriminate|]. split; [congruence|].
      intros e. split.
      * intros H. injection H as <-. repeat split; discriminate.
      * intros (-> & _). reflexivity.
    + split; [intros self' w' H; now injection H|].
      split; [discriminate|]. split; [reflexivity|].
      intros e. split; [discriminate|]. intros (_ & _ & H). congruence.
  - split; [intros self' w' H; now injection H|].
    split; [reflexivity|]. split; [congruence|].
    intros e. split; [discriminate|]. intros (_ & H & _). congruence.
Qed.

End Dialog.

(** ** Loudness on the meter *)

Section Loudness.

Variable rfft_abs : frame -> list Q.

Import AudioVisualizer.

Lemma interp_monotone (x y hi : Q) :
  0 <= hi -> x <= y ->
  Numpy.interp x (0, 100) (0, hi) <= Numpy.interp y (0, 100) (0, hi).
Proof.
  intros Hhi Hxy.
  pose proof (interp_bounds x hi Hhi) as Hbx.
  pose proof (interp_bounds y hi Hhi) as Hby.
  unfold Numpy.interp in *.
  destruct (Qle_bool x 0) eqn:Ex0; [lra|].
  destruct (Qle_bool y 0) eqn:Ey0.
  { apply Qle_bool_iff in Ey0.
    assert (Hx : x <= 0) by lra. apply Qle_bool_iff in Hx. congruence. }
  destruct (Qle_bool 100 y) eqn:Ey1; [destruct (Qle_bool 100 x); lra|].
  destruct (Qle_bool 100 x) eqn:Ex1.
  { apply Qle_bool_iff in Ex1.
    assert (Hy : 100 <= y) by lra. apply Qle_bool_iff in Hy. congruence. }
  assert (Hs : 0 <= (hi - 0) / (100 - 0)).
  { apply Qle_shift_div_l; lra. }
  nra.
Qed.

Lemma target_level_loud (self : t) (audio_data : frame) :
  audio_data <> [] ->
  0 < Numpy.np_max (rfft_abs audio_data) ->
  target_level rfft_abs self audio_data
  = Numpy.interp (Numpy.np_max (rfft_abs audio_data)) (0, 100)
      (0, nat_to_Q (height self)).
Proof.
  intros Hne Hpos. apply target_level_sound; [exact Hne|].
  intros H0. rewrite H0 in Hpos. lra.
Qed.

(** X15: among blocks that are not silent, a block whose largest magnitude
    is at least as large gets a target at least as high; from magnitude 100
    on the target is the full height of the widget. *)
Theorem louder_block_higher_target (self : t) (a b : frame) :
  a <> [] -> b <> [] ->
  0 < Numpy.np_max (rfft_abs a) ->
  Numpy.np_max (rfft_abs a) <= Numpy.np_max (rfft_abs b) ->
  target_level rfft_abs self a <= target_level rfft_abs self b
  /\ (100 <= Numpy.np_max (rfft_abs b) ->
      target_level rfft_abs self b = nat_to_Q (height self)).
Proof.
  intros Ha Hb Hpos Hle.
  rewrite (target_level_loud self a Ha Hpos).
  rewrite (target_level_loud self b Hb) by lra.
  split; [apply interp_monotone; [apply nat_to_Q_nonneg|exact Hle]|].
  intros Hfull. unfold Numpy.interp.
  destruct (Qle_bool (Numpy.np_max (rfft_abs b)) 0) eqn:E0.
  { apply Qle_bool_iff in E0. lra. }
  apply Qle_bool_iff in Hfull. now rewrite Hfull.
Qed.

(** X16: silence reads higher than a faint sound: a non-empty block with an
    all-zero spectrum gets a strictly higher target than a block whose
    largest magnitude lies strictly between 0 and 1. *)
Theorem silence_reads_above_faint (self : t) (silent faint : frame) :
  silent <> [] -> faint <> [] ->
  (0 < height self)%nat ->
  Numpy.np_max (rfft_abs silent) == 0 ->
  0 < Numpy.np_max (rfft_abs faint) ->
  Numpy.np_max (rfft_abs faint) < 1 ->
  target_level rfft_abs self faint < target_level rfft_abs self silent.
Proof.
  intros Hs Hf Hh Hzero Hpos Hlt.
  rewrite (target_level_zero_spectrum rfft_abs self silent Hs Hzero).
  rewrite (target_level_loud self faint Hf Hpos).
  unfold Numpy.interp.
  destruct (Qle_bool (Numpy.np_max (rfft_abs faint)) 0) eqn:E0.
  { apply Qle_bool_iff in E0. lra. }
  destruct (Qle_bool 100 (Numpy.np_max (rfft_abs faint))) eqn:E1.
  { apply Qle_bool_iff in E1. lra. }
  pose proof (nat_to_Q_pos (height self) Hh) as Hhp.
  set (m := Numpy.np_max (rfft_abs faint)) in *.
  set (H := nat_to_Q (height self)) in *.
  setoid_replace ((H - 0) / (100 - 0) * (m - 0) + 0) with (H / 100 * m) by field.
  assert (Hd : 0 < H / 100) by (apply Qlt_shift_div_l; lra).
  nra.
Qed.

End Loudness.

(** ** Peaks *)

Section PeakFacts.

Import DTMFDetector.

(** X17: in [detect_from_data] the [distance=2] argument of [find_peaks]
    removes nothing: the peaks are the local maxima with magnitude at least
    [peak_height], the double product of the largest magnitude and 0.68, in
    ascending order, never bin 0 and never the last bin, and any two of them
    are at least 2 bins apart. *)
Theorem peaks_are_the_high_local_maxima (magnitudes : list Q) :
  peaks magnitudes
  = filter (fun p => Qle_bool (peak_height magnitudes) (nth p magnitudes 0))
      (Scipy.local_maxima_1d magnitudes)
  /\ gap 2 (peaks magnitudes)
  /\ Forall (fun p => (0 < p /\ p + 1 < length magnitudes)%nat) (peaks magnitudes).
Proof.
  assert (Heq : peaks magnitudes
                = Scipy.select_by_height magnitudes (peak_height magnitudes)
                    (Scipy.local_maxima_1d magnitudes))
    by apply find_peaks_distance_2.
  split; [exact Heq|]. split.
  - rewrite Heq. apply gap_filter, local_maxima_1d_gap.
  - apply Forall_forall. intros p Hp. apply peaks_spec in Hp.
    destruct Hp as [(l & r & Hlr & Hr & -> & _) _].
    assert ((l + r) / 2 <= r)%nat by (apply Nat.Div0.div_le_upper_bound; lia).
    assert (l <= (l + r) / 2)%nat by (apply Nat.div_le_lower_bound; lia).
    lia.
Qed.

End PeakFacts.

(** ** Clicks and settings in reachable states *)

Section Clicks.

Variable rfft_abs : frame -> list Q.

Import Application.

Lemma with_window_same (s : t) : with_window s (window s) = s.
Proof.
  destruct s. reflexivity.
Qed.

(** X18: in every state a run from the freshly built window reaches, a
    settings change raises [AttributeError] when the stop button is enabled
    and changes nothing when it is not, and a click on Start is ignored
    while the stop button is enabled: a running thread is never replaced. *)
Theorem settings_and_start_by_button (h : nat) (input output : option Z)
        (events : list event) (s : t) (which : setting) (value now : Q) :
  run rfft_abs events (init h input output) = Ok s ->
  step rfft_abs (Setting which value) s
  = (if stop_button s then Raise AttributeError else Ok s)
  /\ step rfft_abs (ClickStart now) s
     = Ok (if stop_button s then s else start_detection now s).
Proof.
  intros Hrun.
  destruct (run_consistent rfft_abs events _ _ (consistent_init h input output) Hrun)
    as [Hb Ht].
  split.
  - simpl.
    assert (Hset : set which value (window s)
                   = match MainWindow.audio_thread (window s) with
                     | Some _ => Raise AttributeError
                     | None => Ok (window s)
                     end) by (destruct which; reflexivity).
    rewrite Hset.
    destruct (MainWindow.audio_thread (window s)).
    + destruct Ht as [-> _]. reflexivity.
    + rewrite Ht, with_window_same. reflexivity.
  - simpl. rewrite Hb. destruct (stop_button s); reflexivity.
Qed.

(** X19: after any run of events from the freshly built window, the three
    settings dialogs open with 44100, 0.2 and 2048, with or without a
    thread. *)
Theorem dialogs_show_defaults (h : nat) (input output : option Z)
        (events : list event) (s : t) :
  run rfft_abs events (init h input output) = Ok s ->
  Dialogs.current_rate (window s) = 44100
  /\ Dialogs.current_delay (window s) = 2 # 10
  /\ Dialogs.current_buffer_size (window s) = 2048.
Proof.
  intros Hrun.
  destruct (run_consistent rfft_abs events _ _ (consistent_init h input output) Hrun)
    as [_ Ht].
  unfold Dialogs.current_rate, Dialogs.current_delay, Dialogs.current_buffer_size.
  destruct (MainWindow.audio_thread (window s)); [|auto].
  destruct Ht as (_ & _ & Hrate & Hbuf & Hdel & _). auto.
Qed.

End Clicks.

(** ** The further properties at concrete inputs *)

Section FurtherInstances.

Import Samples Scenarios.

Lemma quiet_block_emits_nothing_witness :
  Forall (fun m => m <= 13) (spectrum_as_given (Numpy.zeros 4))
  /\ DTMFDetector.detect_from_data spectrum_as_given (Numpy.zeros 4) = None.
Proof.
  assert (Hq : Forall (fun m => m <= 13) (spectrum_as_given (Numpy.zeros 4)))
    by (vm_compute; repeat constructor; discriminate).
  split; [exact Hq|].
  exact (quiet_block_emits_nothing spectrum_as_given (Numpy.zeros 4) Hq).
Defined.

Lemma short_block_emits_nothing_witness :
  (length block_of_100 < 104)%nat
  /\ DTMFDetector.detect_from_data spectrum_as_given block_of_100 = None.
Proof.
  assert (Hlen : (length block_of_100 < 104)%nat) by (vm_compute; lia).
  split; [exact Hlen|].
  exact (short_block_emits_nothing spectrum_as_given block_of_100 Hlen).
Defined.

(** The bound of X2 is the best one: a block of 104 samples can fire. *)
Lemma block_of_104_fires :
  length block_of_104 = 104%nat
  /\ DTMFDetector.detect_from_data spectrum_as_given block_of_104 = Some "C"%string.
Proof.
  split; vm_compute; reflexivity.
Qed.

Lemma two_candidates_near_a_symbol_witness :
  (near_five <> []
   /\ DTMFDetector.detected_freqs (length near_five) (spectrum_as_given near_five)
      = [nth 18 (DTMFDetector.freq 1024) 0; nth 31 (DTMFDetector.freq 1024) 0]
   /\ In ("5"%string, (770, 1336)) DTMFDetector.dtmf_freqs
   /\ DTMFDetector.distance (nth 18 (DTMFDetector.freq 1024) 0, nth 31 (DTMFDetector.freq 1024) 0) 770 1336 < 73 # 2)
  /\ DTMFDetector.detect_from_data spectrum_as_given near_five = Some "5"%string.
Proof.
  assert (Hne : near_five <> []) by discriminate.
  assert (Hf : DTMFDetector.detected_freqs (length near_five)
                 (spectrum_as_given near_five)
               = [nth 18 (DTMFDetector.freq 1024) 0; nth 31 (DTMFDetector.freq 1024) 0]) by (vm_compute; reflexivity).
  assert (Hin : In ("5"%string, (770, 1336)) DTMFDetector.dtmf_freqs)
    by (simpl; auto 10).
  assert (Hd : DTMFDetector.distance (nth 18 (DTMFDetector.freq 1024) 0, nth 31 (DTMFDetector.freq 1024) 0) 770 1336
               < 73 # 2) by (vm_compute; reflexivity).
  split; [repeat split; assumption|].
  exact (two_candidates_near_a_symbol spectrum_as_given near_five "5"%string
           770 1336 _ _ Hne Hf Hin Hd).
Defined.

Lemma queue_backlog_witness :
  (0 < DTMFDetector.delay fresh_detector
   /\ DTMFDetector.last_detection_time fresh_detector <= 2
   /\ Forall (tick_by 2) burst)
  /\ nat_to_Q (length (DTMFDetector.detection_queue fresh_detector)
               + length (Schedule.arrivals burst))
     - (2 - DTMFDetector.last_detection_time fresh_detector)
       / DTMFDetector.delay fresh_detector
     <= nat_to_Q (length (DTMFDetector.detection_queue
                            (fst (Schedule.run spectrum_as_given burst fresh_detector)))).
Proof.
  assert (Hd : 0 < DTMFDetector.delay fresh_detector) by (vm_compute; reflexivity).
  assert (Ht : DTMFDetector.last_detection_time fresh_detector <= 2)
    by (vm_compute; discriminate).
  assert (Hb : Forall (tick_by 2) burst)
    by (repeat constructor; vm_compute; discriminate).
  split; [repeat split; assumption|].
  exact (queue_backlog spectrum_as_given burst fresh_detector 2 Hd Ht Hb).
Defined.

Lemma update_bars_stays_inside_witness :
  (0 <= AudioVisualizer.smoothing_factor meter_at_2_5 <= 1
   /\ 0 <= AudioVisualizer.smoothed_level meter_at_2_5
      <= nat_to_Q (AudioVisualizer.height meter_at_2_5))
  /\ 0 <= AudioVisualizer.smoothed_level
            (AudioVisualizer.update_bars spectrum_as_given [50; -50] meter_at_2_5)
     <= nat_to_Q (AudioVisualizer.height
                    (AudioVisualizer.update_bars spectrum_as_given [50; -50]
                       meter_at_2_5)).
Proof.
  assert (Ha : 0 <= AudioVisualizer.smoothing_factor meter_at_2_5 <= 1)
    by (split; vm_compute; discriminate).
  assert (Hs : 0 <= AudioVisualizer.smoothed_level meter_at_2_5
               <= nat_to_Q (AudioVisualizer.height meter_at_2_5))
    by (split; vm_compute; discriminate).
  split; [split; assumption|].
  destruct (update_bars_stays_inside spectrum_as_given meter_at_2_5 [50; -50] Ha Hs)
    as (_ & _ & _ & Hin & _).
  exact Hin.
Defined.

Lemma bar_inside_widget_witness :
  0 <= AudioVisualizer.smoothed_level meter_at_2_5
  <= nat_to_Q (AudioVisualizer.height meter_at_2_5)
  /\ (Painting.rect_y (Painting.paintEvent 50 meter_at_2_5)
      + Painting.rect_h (Painting.paintEvent 50 meter_at_2_5)
      = Z.of_nat (AudioVisualizer.height meter_at_2_5))%Z.
Proof.
  assert (Hs : 0 <= AudioVisualizer.smoothed_level meter_at_2_5
               <= nat_to_Q (AudioVisualizer.height meter_at_2_5))
    by (split; vm_compute; discriminate).
  split; [exact Hs|].
  destruct (bar_inside_widget 50 meter_at_2_5 Hs) as (_ & _ & _ & Hsum & _).
  exact Hsum.
Defined.

Lemma window_stays_consistent_witness :
  exists s,
    Application.run spectrum_as_given played new_application = Ok s
    /\ Application.start_button s = negb (Application.stop_button s).
Proof.
  destruct (Application.run spectrum_as_given played new_application)
    as [s|e] eqn:Hrun; [|vm_compute in Hrun; discriminate Hrun].
  exists s. split; [reflexivity|].
  destruct (window_stays_consistent spectrum_as_given 400 None None played s Hrun)
    as [Hb _].
  exact Hb.
Defined.

Lemma reachable_callback_passes_through_witness :
  exists s th s',
    Application.run spectrum_as_given playing new_application = Ok s
    /\ MainWindow.audio_thread (Application.window s) = Some th
    /\ Application.audio_block spectrum_as_given [1; 2] [0; 0] s = Ok (s', [1; 2]).
Proof.
  destruct (Application.run spectrum_as_given playing new_application)
    as [s|e] eqn:Hrun; [|vm_compute in Hrun; discriminate Hrun].
  destruct (MainWindow.audio_thread (Application.window s)) as [th|] eqn:Hth.
  - destruct (reachable_callback_passes_through spectrum_as_given 400 None None
                playing s th [1; 2] [0; 0] Hrun Hth eq_refl)
      as (s' & th' & Hblock & _).
    exists s, th, s'. repeat split; assumption.
  - exfalso. vm_compute in Hrun. injection Hrun as <-. discriminate Hth.
Defined.

Lemma text_field_holds_table_keys_witness :
  exists s,
    Application.run spectrum_as_given played new_application = Ok s
    /\ Forall table_key (Application.dtmf_output s).
Proof.
  destruct (Application.run spectrum_as_given played new_application)
    as [s|e] eqn:Hrun; [|vm_compute in Hrun; discriminate Hrun].
  exists s. split; [reflexivity|].
  exact (text_field_holds_table_keys spectrum_as_given 400 None None played s Hrun).
Defined.

Lemma meter_stays_inside_widget_witness :
  exists s,
    Application.run spectrum_as_given played new_application = Ok s
    /\ 0 <= AudioVisualizer.smoothed_level (MainWindow.visualizer (Application.window s))
       <= nat_to_Q 400.
Proof.
  destruct (Application.run spectrum_as_given played new_application)
    as [s|e] eqn:Hrun; [|vm_compute in Hrun; discriminate Hrun].
  exists s. split; [reflexivity|].
  destruct (meter_stays_inside_widget spectrum_as_given 400 None None played s 50 Hrun)
    as (_ & _ & Hin & _).
  exact Hin.
Defined.

Lemma louder_block_higher_target_witness :
  ([5; -5] <> [] /\ [50; -50] <> []
   /\ 0 < Numpy.np_max (spectrum_as_given [5; -5])
   /\ Numpy.np_max (spectrum_as_given [5; -5])
      <= Numpy.np_max (spectrum_as_given [50; -50]))
  /\ AudioVisualizer.target_level spectrum_as_given meter_at_2_5 [5; -5]
     <= AudioVisualizer.target_level spectrum_as_given meter_at_2_5 [50; -50].
Proof.
  assert (H1 : [5; -5] <> []) by discriminate.
  assert (H2 : [50; -50] <> []) by discriminate.
  assert (H3 : 0 < Numpy.np_max (spectrum_as_given [5; -5]))
    by (vm_compute; reflexivity).
  assert (H4 : Numpy.np_max (spectrum_as_given [5; -5])
               <= Numpy.np_max (spectrum_as_given [50; -50]))
    by (vm_compute; discriminate).
  split; [repeat split; assumption|].
  destruct (louder_block_higher_target spectrum_as_given meter_at_2_5
              [5; -5] [50; -50] H1 H2 H3 H4) as [Hle _].
  exact Hle.
Defined.

Lemma silence_reads_above_faint_witness :
  ([0; 0] <> [] /\ [1 # 2; 0] <> []
   /\ (0 < AudioVisualizer.height meter_at_2_5)%nat
   /\ Numpy.np_max (spectrum_as_given [0; 0]) == 0
   /\ 0 < Numpy.np_max (spectrum_as_given [1 # 2; 0])
   /\ Numpy.np_max (spectrum_as_given [1 # 2; 0]) < 1)
  /\ AudioVisualizer.target_level spectrum_as_given meter_at_2_5 [1 # 2; 0]
     < AudioVisualizer.target_level spectrum_as_given meter_at_2_5 [0; 0].
Proof.
  assert (H1 : [0; 0] <> []) by discriminate.
  assert (H2 : [1 # 2; 0] <> []) by discriminate.
  assert (H3 : (0 < AudioVisualizer.height meter_at_2_5)%nat) by (simpl; lia).
  assert (H4 : Numpy.np_max (spectrum_as_given [0; 0]) == 0)
    by (vm_compute; reflexivity).
  assert (H5 : 0 < Numpy.np_max (spectrum_as_given [1 # 2; 0]))
    by (vm_compute; reflexivity).
  assert (H6 : Numpy.np_max (spectrum_as_given [1 # 2; 0]) < 1)
    by (vm_compute; reflexivity).
  split; [repeat split; assumption|].
  exact (silence_reads_above_faint spectrum_as_given meter_at_2_5
           [0; 0] [1 # 2; 0] H1 H2 H3 H4 H5 H6).
Defined.

Lemma settings_and_start_by_button_witness :
  exists s,
    Application.run spectrum_as_given playing new_application = Ok s
    /\ Application.stop_button s = true
    /\ Application.step spectrum_as_given
         (Application.Setting Application.SampleRate 48000) s
       = Raise AttributeError.
Proof.
  destruct (Application.run spectrum_as_given playing new_application)
    as [s|e] eqn:Hrun; [|vm_compute in Hrun; discriminate Hrun].
  assert (Hstop : Application.stop_button s = true)
    by (vm_compute in Hrun; injection Hrun as <-; reflexivity).
  exists s. split; [reflexivity|]. split; [exact Hstop|].
  destruct (settings_and_start_by_button spectrum_as_given 400 None None playing s
              Application.SampleRate 48000 0 Hrun) as [Hset _].
  rewrite Hstop in Hset. exact Hset.
Defined.

Lemma dialogs_show_defaults_witness :
  exists s,
    Application.run spectrum_as_given playing new_application = Ok s
    /\ Dialogs.current_rate (Application.window s) = 44100.
Proof.
  destruct (Application.run spectrum_as_given playing new_application)
    as [s|e] eqn:Hrun; [|vm_compute in Hrun; discriminate Hrun].
  exists s. split; [reflexivity|].
  destruct (dialogs_show_defaults spectrum_as_given 400 None None playing s Hrun)
    as [Hrate _].
  exact Hrate.
Defined.

End FurtherInstances.
